(** * Dining philosophers: a discrete-event simulation

    A shallow embedding of [dining_philosophers.py] and the properties of
    its event engine.

    Conventions of the embedding.
    - Simulated times are Python floats in the program; here they are the
      rationals [Q], an exact idealisation (no rounding).
    - Python objects that are shared by reference live in arenas: the
      philosophers and the chopsticks are lists, a reference is an index.
      [None] is [None] of [option].
    - The process-wide generator of the [random] module is an explicit
      state [rng], threaded through every call of [expovariate].
    - Exceptions are values of [exn], carried by [result].
    - The [while] loop of [Simulation.run] need not terminate (the clock
      may stall), so the loop takes fuel and answers [None] when it runs
      out. *)

From stdpp Require Import base list.
From Stdlib Require Import QArith Lqa ZArith Lia Sorted.
From Stdlib Require String.
Import String.StringSyntax.
Delimit Scope string_scope with string.

Local Open Scope nat_scope.

(** ** Exceptions *)

Inductive exn : Type :=
  | AttributeError   (* attribute access on None *)
  | IndexError       (* pop from an empty list *)
  | ZeroDivisionError (* expovariate(0.0) *)
  | ValueError (msg : String.string).

Inductive result (A : Type) : Type :=
  | Ok (a : A)
  | Raise (e : exn).
Arguments Ok {A} a.
Arguments Raise {A} e.

Global Instance result_bind : MBind result := fun A B f m =>
  match m with
  | Ok a => f a
  | Raise e => Raise e
  end.

(** [x < y] on floats, as a boolean. *)
Definition Qltb (x y : Q) : bool := negb (Qle_bool y x).

(** ** The [heapq] module

    [heappush] and [heappop] of the Python standard library, on a list
    used as an array, with the sifting loops written as in [heapq.py].
    Items are compared with [lt] only (the item's [__lt__]). *)

Module heapq.
(** [(pos - 1) >> 1] *)
Definition parent (pos : nat) : nat := (pos - 1) / 2.
Global Arguments parent : simpl never.

Section heapq.
Context {A : Type} `{!Inhabited A} (lt : A -> A -> bool).

(** The [while pos > startpos] loop of [_siftdown]; [pos] decreases at
    every turn, so [pos] turns of fuel are enough. *)
Fixpoint siftdown_loop (fuel : nat) (heap : list A) (startpos pos : nat)
    (newitem : A) : list A :=
  match fuel with
  | O => <[pos := newitem]> heap
  | S fuel =>
      if decide (startpos < pos) then
        let parentpos := parent pos in
        let parent := heap !!! parentpos in
        if lt newitem parent
        then siftdown_loop fuel (<[pos := parent]> heap) startpos parentpos newitem
        else <[pos := newitem]> heap
      else <[pos := newitem]> heap
  end.

Definition _siftdown (heap : list A) (startpos pos : nat) : list A :=
  let newitem := heap !!! pos in
  siftdown_loop pos heap startpos pos newitem.

(** The [while childpos < endpos] loop of [_siftup]: the smaller child
    moves up until [pos] is a leaf; answers the array and the leaf. *)
Fixpoint siftup_loop (fuel : nat) (heap : list A) (endpos pos : nat)
    : list A * nat :=
  match fuel with
  | O => (heap, pos)
  | S fuel =>
      let childpos := 2 * pos + 1 in
      if decide (childpos < endpos) then
        let rightpos := childpos + 1 in
        let childpos :=
          if bool_decide (rightpos < endpos)
             && negb (lt (heap !!! childpos) (heap !!! rightpos))
          then rightpos else childpos in
        siftup_loop fuel (<[pos := heap !!! childpos]> heap) endpos childpos
      else (heap, pos)
  end.

Definition _siftup (heap : list A) (pos : nat) : list A :=
  let endpos := length heap in
  let startpos := pos in
  let newitem := heap !!! pos in
  let '(heap, pos) := siftup_loop endpos heap endpos pos in
  let heap := <[pos := newitem]> heap in
  _siftdown heap startpos pos.

Definition heappush (heap : list A) (item : A) : list A :=
  let heap := heap ++ [item] in
  _siftdown heap 0 (length heap - 1).

(** [heap.pop()] raises [IndexError] on the empty list. *)
Definition heappop (heap : list A) : result (A * list A) :=
  match last heap with
  | None => Raise IndexError
  | Some lastelt =>
      let heap := take (length heap - 1) heap in
      match heap with
      | [] => Ok (lastelt, heap)
      | returnitem :: _ =>
          let heap := <[0 := lastelt]> heap in
          Ok (returnitem, _siftup heap 0)
      end
  end.

(** The heap invariant of the module's documentation: no item is
    smaller than its parent ([heap[k] <= heap[2*k+1]] and
    [heap[k] <= heap[2*k+2]]). *)
Definition is_heap (heap : list A) : Prop :=
  forall i, 0 < i < length heap -> lt (heap !!! i) (heap !!! parent i) = false.

(** The invariant while slot [pos] is a hole (its content is about to
    be overwritten): it holds between all other slots, and the items
    below the hole are not smaller than the item above it. *)
Definition heap_except (heap : list A) (pos : nat) : Prop :=
  (forall i, 0 < i < length heap -> i <> pos -> parent i <> pos ->
             lt (heap !!! i) (heap !!! parent i) = false) /\
  (forall c, 0 < pos -> 0 < c < length heap -> parent c = pos ->
             lt (heap !!! c) (heap !!! parent pos) = false).
End heapq.
End heapq.

(** ** Data model *)

Inductive EventTypes : Type := REQUEST | FINISH.

Record Chopstick : Type := { is_free : bool }.

Definition Chopstick_init : Chopstick := {| is_free := true |}.
Definition pick_up (self : Chopstick) : Chopstick := {| is_free := false |}.
Definition put_down (self : Chopstick) : Chopstick := {| is_free := true |}.

Record Philosopher : Type := {
  mi : Q;
  lambda_i : Q;
  left_chopstick : option nat;
  right_chopstick : option nat;
  failed_attempts : nat;
  eating_time : Q;
  started_at : Q;
  requests : list Q
}.

Definition Philosopher_init (mi lambda_i : Q) : Philosopher :=
  {| mi := mi; lambda_i := lambda_i;
     left_chopstick := None; right_chopstick := None;
     failed_attempts := 0; eating_time := 0; started_at := 0;
     requests := [] |}.

Record Event : Type := {
  philosopher : nat;
  time : Q;
  type : EventTypes
}.

(** [Event.__lt__] *)
Definition Event_lt (self other : Event) : bool := Qltb (time self) (time other).

Global Instance Chopstick_inhabited : Inhabited Chopstick :=
  populate Chopstick_init.
Global Instance Philosopher_inhabited : Inhabited Philosopher :=
  populate (Philosopher_init 0 0).
Global Instance Event_inhabited : Inhabited Event :=
  populate {| philosopher := 0; time := 0; type := REQUEST |}.

Global Instance EventTypes_eq_dec : EqDecision EventTypes.
Proof. solve_decision. Defined.

(** Field assignments on a philosopher. *)
Definition set_chopsticks (l r : option nat) (p : Philosopher) : Philosopher :=
  {| mi := mi p; lambda_i := lambda_i p;
     left_chopstick := l; right_chopstick := r;
     failed_attempts := failed_attempts p; eating_time := eating_time p;
     started_at := started_at p; requests := requests p |}.

Definition set_failed_attempts (v : nat) (p : Philosopher) : Philosopher :=
  {| mi := mi p; lambda_i := lambda_i p;
     left_chopstick := left_chopstick p; right_chopstick := right_chopstick p;
     failed_attempts := v; eating_time := eating_time p;
     started_at := started_at p; requests := requests p |}.

Definition set_eating_time (v : Q) (p : Philosopher) : Philosopher :=
  {| mi := mi p; lambda_i := lambda_i p;
     left_chopstick := left_chopstick p; right_chopstick := right_chopstick p;
     failed_attempts := failed_attempts p; eating_time := v;
     started_at := started_at p; requests := requests p |}.

Definition set_started_at (v : Q) (p : Philosopher) : Philosopher :=
  {| mi := mi p; lambda_i := lambda_i p;
     left_chopstick := left_chopstick p; right_chopstick := right_chopstick p;
     failed_attempts := failed_attempts p; eating_time := eating_time p;
     started_at := v; requests := requests p |}.

Definition set_requests (v : list Q) (p : Philosopher) : Philosopher :=
  {| mi := mi p; lambda_i := lambda_i p;
     left_chopstick := left_chopstick p; right_chopstick := right_chopstick p;
     failed_attempts := failed_attempts p; eating_time := eating_time p;
     started_at := started_at p; requests := v |}.

(** ** The simulation, over an arbitrary random source *)

Section Simulation.
(** The state of the [random] module and [random.expovariate]. *)
Context {rng : Type} (expovariate : Q -> rng -> Q * rng).

(** A [Simulation] object together with the objects it reaches: the
    chopsticks (a local of [__init__], kept alive by the philosophers)
    and the generator. *)
Record Simulation : Type := {
  events : list Event;
  T : Q;
  philosophers : list Philosopher;
  chopsticks : list Chopstick;
  gen : rng
}.

Definition set_events (v : list Event) (s : Simulation) : Simulation :=
  {| events := v; T := T s; philosophers := philosophers s;
     chopsticks := chopsticks s; gen := gen s |}.

Definition set_gen (v : rng) (s : Simulation) : Simulation :=
  {| events := events s; T := T s; philosophers := philosophers s;
     chopsticks := chopsticks s; gen := v |}.

(** Mutation of the philosopher object behind reference [self]. *)
Definition update_philosopher (self : nat) (f : Philosopher -> Philosopher)
    (s : Simulation) : Simulation :=
  {| events := events s; T := T s;
     philosophers := <[self := f (philosophers s !!! self)]> (philosophers s);
     chopsticks := chopsticks s; gen := gen s |}.

(** Mutation of the chopstick object behind reference [c]. *)
Definition update_chopstick (c : nat) (f : Chopstick -> Chopstick)
    (s : Simulation) : Simulation :=
  {| events := events s; T := T s; philosophers := philosophers s;
     chopsticks := <[c := f (chopsticks s !!! c)]> (chopsticks s);
     gen := gen s |}.

(** [ref.is_free], [ref.pick_up()], [ref.put_down()] through a
    reference that may be [None]. *)
Definition ref_is_free (ref : option nat) (s : Simulation) : result bool :=
  match ref with
  | None => Raise AttributeError
  | Some c => Ok (is_free (chopsticks s !!! c))
  end.

Definition ref_pick_up (ref : option nat) (s : Simulation) : result Simulation :=
  match ref with
  | None => Raise AttributeError
  | Some c => Ok (update_chopstick c pick_up s)
  end.

Definition ref_put_down (ref : option nat) (s : Simulation) : result Simulation :=
  match ref with
  | None => Raise AttributeError
  | Some c => Ok (update_chopstick c put_down s)
  end.

(** [random.expovariate(rate)], advancing the generator; the division
    by [rate] raises when [rate] is zero. *)
Definition draw (rate : Q) (s : Simulation) : result (Q * Simulation) :=
  if Qeq_bool rate 0 then Raise ZeroDivisionError
  else let '(d, g) := expovariate rate (gen s) in Ok (d, set_gen g s).

(** [Philosopher.request] *)
Definition request (self : nat) (time : Q) (s : Simulation)
    : result (Event * Simulation) :=
  let s := update_philosopher self (fun p => set_requests (requests p ++ [time]) p) s in
  let me := philosophers s !!! self in
  lfree ← ref_is_free (left_chopstick me) s;
  both ← (if lfree : bool then ref_is_free (right_chopstick me) s else Ok false);

  if both : bool then
    s ← ref_pick_up (left_chopstick me) s;
    s ← ref_pick_up (right_chopstick me) s;
    let s := update_philosopher self (set_started_at time) s in
    '(d, s) ← draw (mi me) s;
    Ok ({| philosopher := self; time := time + d; type := FINISH |}, s)
  else
    let s := update_philosopher self
               (fun p => set_failed_attempts (failed_attempts p + 1) p) s in
    '(d, s) ← draw (lambda_i me) s;
    Ok ({| philosopher := self; time := time + d; type := REQUEST |}, s).

(** [Philosopher.finish] *)
Definition finish (self : nat) (time : Q) (s : Simulation)
    : result (Event * Simulation) :=
  let me := philosophers s !!! self in
  s ← ref_put_down (left_chopstick me) s;
  s ← ref_put_down (right_chopstick me) s;
  let s := update_philosopher self
             (fun p => set_eating_time (eating_time p + (time - started_at p)) p) s in
  '(d, s) ← draw (lambda_i me) s;
  Ok ({| philosopher := self; time := time + d; type := REQUEST |}, s).

(** [Simulation.__init__] *)
Definition Simulation_init (mi T : Q) (lambdas : list Q) (g : rng) : Simulation :=
  let philosophers := map (Philosopher_init mi) lambdas in
  let chopsticks := map (fun _ => Chopstick_init) philosophers in
  let philosophers :=
    imap (fun index philosopher =>
            set_chopsticks (Some index)
                           (Some ((index + 1) mod length chopsticks))
                           philosopher) philosophers in
  {| events := []; T := T; philosophers := philosophers;
     chopsticks := chopsticks; gen := g |}.

(** The seeding loop of [run]: [for philosopher in self.philosophers]. *)
Fixpoint seed (refs : list nat) (time : Q) (s : Simulation) : result Simulation :=
  match refs with
  | [] => Ok s
  | philosopher :: refs =>
      '(event, s) ← request philosopher time s;
      seed refs time (set_events (heapq.heappush Event_lt (events s) event) s)
  end.

(** One turn of the [while] loop; answers the popped event, whose time
    is the new value of [time]. *)
Definition iteration (s : Simulation) : result (Event * Simulation) :=
  '(event, heap) ← heapq.heappop Event_lt (events s);
  let s := set_events heap s in
  let time := time event in
  '(next_event, s) ←
      (match type event with
       | REQUEST => request (philosopher event) time s
       | FINISH => finish (philosopher event) time s
       end);
  Ok (event, set_events (heapq.heappush Event_lt (events s) next_event) s).

(** [while time < self.T: ...] followed by [self.events.clear()]; the
    local [time] of [run] is [clock] here. *)
Fixpoint loop (fuel : nat) (clock : Q) (s : Simulation) : option (result Simulation) :=
  if Qltb clock (T s) then
    match fuel with
    | O => None
    | S fuel =>
        match iteration s with
        | Raise e => Some (Raise e)
        | Ok (event, s) => loop fuel (time event) s
        end
    end
  else Some (Ok (set_events [] s)).

(** [Simulation.run] *)
Definition run (fuel : nat) (s : Simulation) : option (result Simulation) :=
  let clock := 0%Q in
  match seed (seq 0 (length (philosophers s))) clock s with
  | Raise e => Some (Raise e)
  | Ok s => loop fuel clock s
  end.
End Simulation.


(** ** The module-level [run] and the checks of the [__main__] block *)

(** [Simulation.run], under a name that the module-level [run] below does
    not hide. *)
Definition Simulation_run {rng : Type} := @run rng.

Module toplevel.
(** The namespace that [parse_args] returns: [-n] and [-T] are
    integers, [-mi] is a float or [None], [-lambdas] a list of floats
    or [None]. *)
Record Namespace : Type := {
  n : Z;
  T : Z;
  mi : option Q;
  lambdas : option (list Q)
}.

(** Truth value of [args.mi]: [None] and [0.0] are false. *)
Definition truthy_float (x : option Q) : bool :=
  match x with
  | None => false
  | Some v => negb (Qeq_bool v 0)
  end.

(** Truth value of [args.lambdas]: [None] and the empty list are false. *)
Definition truthy_list (x : option (list Q)) : bool :=
  match x with
  | None | Some [] => false
  | Some (_ :: _) => true
  end.

(** Lines 138 and 139: the length of a non-empty [-lambdas] takes the
    place of [-n]. *)
Definition override_n (args : Namespace) : Namespace :=
  if truthy_list (lambdas args)
  then {| n := Z.of_nat (length (default [] (lambdas args)));
          T := T args; mi := mi args; lambdas := lambdas args |}
  else args.

(** Lines 138 to 147: the namespace after the checks, or the
    [ValueError] raised. *)
Definition validate (args : Namespace) : result Namespace :=
  let args := override_n args in
  if (n args <? 2)%Z || negb (n args mod 2 =? 1)%Z then
    Raise (ValueError "Number of philosophers must be odd and greater than 1"%string)
  else if (T args <? 1)%Z then
    Raise (ValueError "Time of simulation must be greater than 0"%string)
  else if truthy_float (mi args) && Qle_bool (default 0%Q (mi args)) 0 then
    Raise (ValueError "Mi must be greater than 0"%string)
  else if truthy_list (lambdas args)
          && existsb (fun lambda_i => Qle_bool lambda_i 0) (default [] (lambdas args)) then
    Raise (ValueError "Lambdas must be greater than 0"%string)
  else Ok args.

Section run.
Context {rng : Type} (expovariate : Q -> rng -> Q * rng).
(** [round(random.uniform(0.01, 1), 2)] *)
Context (uniform_round : rng -> Q * rng).

(** [[round(random.uniform(0.01, 1), 2) for _ in range(n)]] *)
Fixpoint uniform_list (n : nat) (g : rng) : list Q * rng :=
    match n with
    | O => ([], g)
    | S n => let '(x, g) := uniform_round g in
             let '(xs, g) := uniform_list n g in (x :: xs, g)
    end.

(** The module-level [run(n, T, mi, lambdas)]; answers what
      [simulation.run()] leaves. *)
Definition run (fuel : nat) (n T : Z) (mi : option Q) (lambdas : option (list Q))
      (g : rng) : option (result (Simulation (rng := rng))) :=
    let '(mi, g) := match mi with
                    | None => uniform_round g
                    | Some mi => (mi, g)
                    end in
    let '(lambdas, g) := match lambdas with
                         | None => uniform_list (Z.to_nat n) g
                         | Some lambdas => (lambdas, g)
                         end in
    let simulation := Simulation_init mi (inject_Z T) lambdas g in
    Simulation_run expovariate fuel simulation.
End run.
End toplevel.

(** ** Runs of the loop, and the vocabulary of the properties *)

Section Runs.
Context {rng : Type} (expovariate : Q -> rng -> Q * rng).
Implicit Types s : Simulation (rng := rng).
Implicit Types tr : list (Event * Simulation (rng := rng)).

(** [turns s tr s']: from [s], the loop body runs [length tr] times and
    leaves [s']; [tr] lists, turn by turn, the event popped and the
    state the turn leaves. *)
Inductive turns : Simulation (rng := rng) -> list (Event * Simulation (rng := rng))
                  -> Simulation (rng := rng) -> Prop :=
  | turns_nil s : turns s [] s
  | turns_cons s event s' tr s'' :
      iteration expovariate s = Ok (event, s') ->
      turns s' tr s'' ->
      turns s ((event, s') :: tr) s''.

(** The state that the seeding loop of [run] leaves. *)
Definition seeded s0 s : Prop :=
  seed expovariate (seq 0 (length (philosophers s0))) 0 s0 = Ok s.

(** The states at the head of the [while] loop. *)
Definition reachable s0 s : Prop :=
  exists s1 tr, seeded s0 s1 /\ turns s1 tr s.

(** The values of [time] at the successive tests [time < self.T], for a
    loop that leaves after the turns of [times]: every test but the
    last passes, the last fails. *)
Fixpoint stops (T clock : Q) (times : list Q) : Prop :=
  match times with
  | [] => (T <= clock)%Q
  | t :: times => (clock < T)%Q /\ stops T t times
  end.

(** The value of [time] after the turns of [tr], [clock] before them. *)
Definition last_clock (clock : Q) tr : Q :=
  default clock (time <$> (fst <$> last tr)).

(** The actor has a FINISH event pending: it is between a successful
    request and the matching [finish] (EATING); otherwise it is
    WAITING. *)
Definition eating s (i : nat) : bool :=
  existsb (fun e => bool_decide (philosopher e = i /\ type e = FINISH)) (events s).

(** Chopstick [c] is the left or the right chopstick of actor [i]. *)
Definition adjacent s (i c : nat) : Prop :=
  exists p, philosophers s !! i = Some p /\
            (left_chopstick p = Some c \/ right_chopstick p = Some c).

(** Actor [i] holds chopstick [c]: it picked it up in a successful
    request and has not put it down yet. *)
Definition holds s (i c : nat) : Prop :=
  eating s i = true /\ adjacent s i c.

(** Sum over the actors of [eating_time]. *)
Definition total_eating_time s : Q :=
  foldr Qplus 0%Q (eating_time <$> philosophers s).

(** FINISH events processed in [tr]. *)
Definition finishes tr : nat :=
  length (filter (fun x => type x.1 = FINISH) tr).

(** The busy intervals that actor [i] closes in [tr], oldest first:
    from [started_at] to the time of the FINISH event. *)
Definition busy_intervals (i : nat) tr : list (Q * Q) :=
  (fun x => (started_at (philosophers x.2 !!! i), time x.1))
    <$> filter (fun x => philosopher x.1 = i /\ type x.1 = FINISH) tr.

(** The times of the REQUEST events dispatched to actor [i] in [tr]. *)
Definition request_times (i : nat) tr : list Q :=
  (fun x => time x.1)
    <$> filter (fun x => philosopher x.1 = i /\ type x.1 = REQUEST) tr.
(** Every actor has both chopstick references set, to chopsticks of
    the table. *)
Definition wired s : Prop :=
  forall i p, philosophers s !! i = Some p ->
    exists l r, left_chopstick p = Some l /\ right_chopstick p = Some r /\
                l < length (chopsticks s) /\ r < length (chopsticks s).

(** A chopstick is marked taken exactly when some actor holds it. *)
Definition flags_agree s : Prop :=
  forall c, c < length (chopsticks s) ->
    is_free (chopsticks s !!! c) = false <-> exists i, holds s i c.

(** No chopstick is held by two actors. *)
Definition exclusive s : Prop :=
  forall i j c, holds s i c -> holds s j c -> i = j.

(** The actors [0 .. k-1] have one pending event each, the others none. *)
Definition pending (k : nat) s : Prop :=
  philosopher <$> events s ≡ₚ seq 0 k.

(** No rate is zero or negative. *)
Definition positive_rates s : Prop :=
  forall p, p ∈ philosophers s -> (0 < mi p)%Q /\ (0 < lambda_i p)%Q.
(** The safety invariant of the table. *)
Definition safe s : Prop := wired s /\ flags_agree s /\ exclusive s.

(** Two philosophers that differ in their statistics only. *)
Definition same_seat (p1 p2 : Philosopher) : Prop :=
  left_chopstick p1 = left_chopstick p2 /\
  right_chopstick p1 = right_chopstick p2 /\
  mi p1 = mi p2 /\ lambda_i p1 = lambda_i p2.
(** The invariant of the loop over a table of which the actors
    [0 .. k-1] are seeded. *)
Definition seated (k : nat) s : Prop :=
  safe s /\ pending k s /\ k <= length (philosophers s).
(** The queue is a heap of events that are not in the past, and no
    actor started eating in the future or before time zero. *)
Definition timely (clock : Q) s : Prop :=
  heapq.is_heap Event_lt (events s) /\
  (forall e, e ∈ events s -> (clock <= time e)%Q) /\
  (forall p, p ∈ philosophers s -> (0 <= started_at p)%Q /\ (started_at p <= clock)%Q).

(** The times of the events processed in [tr], in order. *)
Definition times tr : list Q := (fun x => time x.1) <$> tr.

(** Intervals in chronological order that do not overlap: each ends no
    later than the next ones begin, and none ends before it begins. *)
Definition chain (l : list (Q * Q)) : Prop :=
  StronglySorted (fun x y => (x.2 <= y.1)%Q) l /\
  Forall (fun x => (x.1 <= x.2)%Q) l.

(** Total length of a list of intervals. *)
Definition total_length (l : list (Q * Q)) : Q :=
  foldr (fun x acc => (x.2 - x.1) + acc)%Q 0%Q l.

(** A natural number as a float. *)
Definition Q_of_nat (n : nat) : Q := inject_Z (Z.of_nat n).
(** During the seeding loop: the actors below [k] have logged their
    request at time zero, nobody has eaten yet. *)
Definition seeding (k : nat) s : Prop :=
  timely 0 s /\
  forall i p, philosophers s !! i = Some p ->
    eating_time p = 0%Q /\ started_at p = 0%Q /\
    requests p = if decide (i < k) then [0%Q] else [].
End Runs.

(** ** A scripted random source

    A generator that replays a fixed list of draws, each a non-negative
    fraction given as numerator and denominator; once the list is used up
    it answers zero.  Every sequence of non-negative numbers is a possible
    outcome of an exponential source, whatever its rate. *)

Definition script : Type := list (N * positive).

Definition scripted (rate : Q) (g : script) : Q * script :=
  match g with
  | [] => (0%Q, [])
  | (a, b) :: g => (Z.of_N a # b, g)
  end.

(** ** More vocabulary: counting meals *)

Section Counting.
Context {rng : Type}.
Implicit Types tr : list (Event * Simulation (rng := rng)).

(** The number of busy intervals that actor [i] has closed in [tr]. *)
Definition meals (i : nat) tr : nat := length (busy_intervals i tr).
End Counting.

(** * Properties *)

Lemma Qltb_true x y : Qltb x y = true <-> (x < y)%Q.
Proof.
  unfold Qltb. rewrite negb_true_iff. split.
  - intros H. apply Qnot_le_lt. intros Hle.
    apply Qle_bool_iff in Hle. congruence.
  - intros H. destruct (Qle_bool y x) eqn:E; [|reflexivity].
    apply Qle_bool_iff in E. lra.
Qed.

Lemma Qltb_false x y : Qltb x y = false <-> (y <= x)%Q.
Proof.
  unfold Qltb. rewrite negb_false_iff. apply Qle_bool_iff.
Qed.

Lemma Qeq_bool_false_of_pos x : (0 < x)%Q -> Qeq_bool x 0 = false.
Proof.
  intros H. destruct (Qeq_bool x 0) eqn:E; [|reflexivity].
  apply Qeq_bool_iff in E. lra.
Qed.

(** ** The two handlers, as equations *)

Section Handlers.
Context {rng : Type} (expovariate : Q -> rng -> Q * rng).

Lemma lookup_total_of_lookup {A} `{!Inhabited A} (l : list A) i x :
  l !! i = Some x -> l !!! i = x.
Proof. intros H. by rewrite list_lookup_total_alt, H. Qed.

(** [Philosopher.request] on a wired actor. *)
Lemma request_eq (s : Simulation) self t p l r :
  philosophers s !! self = Some p ->
  left_chopstick p = Some l -> right_chopstick p = Some r ->
  request expovariate self t s =
    if is_free (chopsticks s !!! l) && is_free (chopsticks s !!! r) then
      if Qeq_bool (mi p) 0 then Raise ZeroDivisionError
      else
        Ok ({| philosopher := self;
               time := t + (expovariate (mi p) (gen s)).1;
               type := FINISH |},
            {| events := events s; T := T s;
               philosophers :=
                 <[self := set_started_at t (set_requests (requests p ++ [t]) p)]>
                   (philosophers s);
               chopsticks :=
                 <[r := {| is_free := false |}]>
                   (<[l := {| is_free := false |}]> (chopsticks s));
               gen := (expovariate (mi p) (gen s)).2 |})
    else
      if Qeq_bool (lambda_i p) 0 then Raise ZeroDivisionError
      else
        Ok ({| philosopher := self;
               time := t + (expovariate (lambda_i p) (gen s)).1;
               type := REQUEST |},
            {| events := events s; T := T s;
               philosophers :=
                 <[self := set_failed_attempts (failed_attempts p + 1)
                             (set_requests (requests p ++ [t]) p)]>
                   (philosophers s);
               chopsticks := chopsticks s;
               gen := (expovariate (lambda_i p) (gen s)).2 |}).
Proof.
  intros Hp Hl Hr.
  pose proof (lookup_lt_Some _ _ _ Hp) as Hlt.
  unfold request, update_philosopher. cbn.
  rewrite !(lookup_total_of_lookup _ _ _ Hp).
  rewrite ?list_lookup_total_insert_eq by done. cbn.
  rewrite Hl, Hr. cbn.
  destruct (is_free (chopsticks s !!! l)) eqn:Hfl; cbn;
    [destruct (is_free (chopsticks s !!! r)) eqn:Hfr; cbn|];
    unfold draw; cbn.
  - destruct (Qeq_bool (mi p) 0); [done|].
    destruct (expovariate (mi p) (gen s)) as [d g]. cbn.
    rewrite ?list_lookup_total_insert_eq by done.
    by rewrite list_insert_insert_eq.
  - destruct (Qeq_bool (lambda_i p) 0); [done|].
    destruct (expovariate (lambda_i p) (gen s)) as [d g]. cbn.
    rewrite ?list_lookup_total_insert_eq by done.
    by rewrite list_insert_insert_eq.
  - destruct (Qeq_bool (lambda_i p) 0); [done|].
    destruct (expovariate (lambda_i p) (gen s)) as [d g]. cbn.
    rewrite ?list_lookup_total_insert_eq by done.
    by rewrite list_insert_insert_eq.
Qed.

(** [Philosopher.finish] on a wired actor. *)
Lemma finish_eq (s : Simulation) self t p l r :
  philosophers s !! self = Some p ->
  left_chopstick p = Some l -> right_chopstick p = Some r ->
  finish expovariate self t s =
    if Qeq_bool (lambda_i p) 0 then Raise ZeroDivisionError
    else
      Ok ({| philosopher := self;
             time := t + (expovariate (lambda_i p) (gen s)).1;
             type := REQUEST |},
          {| events := events s; T := T s;
             philosophers :=
               <[self := set_eating_time (eating_time p + (t - started_at p)) p]>
                 (philosophers s);
             chopsticks :=
               <[r := {| is_free := true |}]>
                 (<[l := {| is_free := true |}]> (chopsticks s));
             gen := (expovariate (lambda_i p) (gen s)).2 |}).
Proof.
  intros Hp Hl Hr.
  unfold finish, update_philosopher. cbn.
  rewrite !(lookup_total_of_lookup _ _ _ Hp).
  rewrite Hl, Hr. cbn. unfold draw. cbn.
  destruct (Qeq_bool (lambda_i p) 0); [done|].
  destruct (expovariate (lambda_i p) (gen s)) as [d g]. cbn.
  by rewrite !(lookup_total_of_lookup _ _ _ Hp).
Qed.

(** A handler raises nothing but [AttributeError] (a missing chopstick)
    and [ZeroDivisionError] (a zero rate). *)
Lemma request_Raise (s : Simulation) self t e :
  request expovariate self t s = Raise e ->
  e = AttributeError \/ e = ZeroDivisionError.
Proof.
  unfold request, ref_is_free, ref_pick_up, draw. cbn.
  repeat (match goal with
          | |- context [match ?x with _ => _ end] => destruct x eqn:?
          end; cbn; try done); intros [= <-]; auto.
Qed.

Lemma finish_Raise (s : Simulation) self t e :
  finish expovariate self t s = Raise e ->
  e = AttributeError \/ e = ZeroDivisionError.
Proof.
  unfold finish, ref_put_down, draw. cbn.
  repeat (match goal with
          | |- context [match ?x with _ => _ end] => destruct x eqn:?
          end; cbn; try done); intros [= <-]; auto.
Qed.
End Handlers.

Lemma scripted_nonneg rate g : (0 < rate)%Q -> (0 <= (scripted rate g).1)%Q.
Proof.
  intros _. destruct g as [|[a b] g]; cbn; [lra|].
  unfold Qle. cbn. lia.
Qed.

(** ** The handlers, for a source whose draws are non-negative *)

Section Dispatch.
Context {rng : Type} (expovariate : Q -> rng -> Q * rng).
Hypothesis expovariate_nonneg :
  forall rate g, (0 < rate)%Q -> (0 <= (expovariate rate g).1)%Q.

(** C1. A REQUEST dispatched to a wired actor at time [t] appends [t] to
    the request log; when both chopsticks are free it takes both, sets
    [started_at] to [t] and answers one FINISH event at [t + d], [d] the
    non-negative draw at the service rate; otherwise it adds one to
    [failed_attempts], takes nothing and answers one REQUEST event at
    [t + d'], [d'] the non-negative draw at the request rate. *)
Theorem request_dispatch (s : Simulation) (self : nat) (t : Q)
    (p : Philosopher) (l r : nat) :
  philosophers s !! self = Some p ->
  left_chopstick p = Some l -> right_chopstick p = Some r ->
  l < length (chopsticks s) -> r < length (chopsticks s) ->
  (0 < mi p)%Q -> (0 < lambda_i p)%Q ->
  exists ev s' p',
    request expovariate self t s = Ok (ev, s') /\
    philosophers s' !! self = Some p' /\
    (forall j, j <> self -> philosophers s' !! j = philosophers s !! j) /\
    requests p' = requests p ++ [t] /\
    eating_time p' = eating_time p /\
    philosopher ev = self /\
    if is_free (chopsticks s !!! l) && is_free (chopsticks s !!! r) then
      is_free (chopsticks s' !!! l) = false /\
      is_free (chopsticks s' !!! r) = false /\
      (forall c, c <> l -> c <> r -> chopsticks s' !! c = chopsticks s !! c) /\
      started_at p' = t /\
      failed_attempts p' = failed_attempts p /\
      type ev = FINISH /\
      time ev = (t + (expovariate (mi p) (gen s)).1)%Q /\
      (0 <= (expovariate (mi p) (gen s)).1)%Q /\
      gen s' = (expovariate (mi p) (gen s)).2
    else
      failed_attempts p' = failed_attempts p + 1 /\
      chopsticks s' = chopsticks s /\
      started_at p' = started_at p /\
      type ev = REQUEST /\
      time ev = (t + (expovariate (lambda_i p) (gen s)).1)%Q /\
      (0 <= (expovariate (lambda_i p) (gen s)).1)%Q /\
      gen s' = (expovariate (lambda_i p) (gen s)).2.
Proof.
  intros Hp Hl Hr Hll Hrl Hmi Hla.
  pose proof (lookup_lt_Some _ _ _ Hp) as Hlt.
  destruct (is_free (chopsticks s !!! l) && is_free (chopsticks s !!! r)) eqn:Hfree.
  - rewrite (request_eq _ _ _ _ _ _ _ Hp Hl Hr), Hfree,
      (Qeq_bool_false_of_pos _ Hmi).
    apply andb_true_iff in Hfree as [Hfl Hfr].
    eexists _, _, _. split; [reflexivity|].
    cbn. split; [by apply list_lookup_insert_eq|].
    split; [intros j Hj; by apply list_lookup_insert_ne|].
    repeat split; try done.
    + destruct (decide (l = r)) as [->|Hne].
      * by rewrite list_lookup_total_insert_eq by (by rewrite length_insert).
      * rewrite list_lookup_total_insert_ne by done.
        by rewrite list_lookup_total_insert_eq.
    + by rewrite list_lookup_total_insert_eq by (by rewrite length_insert).
    + intros c Hcl Hcr. by rewrite !list_lookup_insert_ne.
    + by apply expovariate_nonneg.
  - rewrite (request_eq _ _ _ _ _ _ _ Hp Hl Hr), Hfree,
      (Qeq_bool_false_of_pos _ Hla).
    eexists _, _, _. split; [reflexivity|].
    cbn. split; [by apply list_lookup_insert_eq|].
    split; [intros j Hj; by apply list_lookup_insert_ne|].
    repeat split; try done.
    by apply expovariate_nonneg.
Qed.

(** C2. A FINISH dispatched at time [t] to a wired actor that holds both
    of its chopsticks frees both, adds [t - started_at] to
    [eating_time] and answers one REQUEST event at [t + d], [d] the
    non-negative draw at the request rate; [failed_attempts] and the
    request log stay as they were. *)
Theorem finish_dispatch (s : Simulation) (self : nat) (t : Q)
    (p : Philosopher) (l r : nat) :
  philosophers s !! self = Some p ->
  left_chopstick p = Some l -> right_chopstick p = Some r ->
  l < length (chopsticks s) -> r < length (chopsticks s) ->
  is_free (chopsticks s !!! l) = false ->
  is_free (chopsticks s !!! r) = false ->
  (0 < lambda_i p)%Q ->
  exists ev s' p',
    finish expovariate self t s = Ok (ev, s') /\
    philosophers s' !! self = Some p' /\
    (forall j, j <> self -> philosophers s' !! j = philosophers s !! j) /\
    is_free (chopsticks s' !!! l) = true /\
    is_free (chopsticks s' !!! r) = true /\
    (forall c, c <> l -> c <> r -> chopsticks s' !! c = chopsticks s !! c) /\
    eating_time p' = (eating_time p + (t - started_at p))%Q /\
    failed_attempts p' = failed_attempts p /\
    requests p' = requests p /\
    started_at p' = started_at p /\
    ev = {| philosopher := self;
            time := t + (expovariate (lambda_i p) (gen s)).1;
            type := REQUEST |} /\
    (0 <= (expovariate (lambda_i p) (gen s)).1)%Q /\
    gen s' = (expovariate (lambda_i p) (gen s)).2.
Proof.
  intros Hp Hl Hr Hll Hrl _ _ Hla.
  rewrite (finish_eq _ _ _ _ _ _ _ Hp Hl Hr), (Qeq_bool_false_of_pos _ Hla).
  eexists _, _, _. split; [reflexivity|].
  cbn. split; [by apply list_lookup_insert_eq, (lookup_lt_Some _ _ _ Hp)|].
  split; [intros j Hj; by apply list_lookup_insert_ne|].
  repeat split; try done.
  - destruct (decide (l = r)) as [->|Hne].
    + by rewrite list_lookup_total_insert_eq by (by rewrite length_insert).
    + rewrite list_lookup_total_insert_ne by done.
      by rewrite list_lookup_total_insert_eq.
  - by rewrite list_lookup_total_insert_eq by (by rewrite length_insert).
  - intros c Hcl Hcr. by rewrite !list_lookup_insert_ne.
  - by apply expovariate_nonneg.
Qed.
End Dispatch.

(** A wired actor of a three-seat table, used to run the handlers. *)
Lemma request_dispatch_witness :
  let s := Simulation_init 1 10 [1; 1; 1]%Q ([(5%N, 1%positive); (7%N, 1%positive)] : script) in
  exists ev s',
    request scripted 1 0 s = Ok (ev, s') /\ type ev = FINISH /\ time ev = (0 + 5)%Q.
Proof.
  intros s.
  destruct (request_dispatch scripted scripted_nonneg s 1 0
              (set_chopsticks (Some 1) (Some 2) (Philosopher_init 1 1)) 1 2)
    as (ev & s' & p' & Hreq & _ & _ & _ & _ & _ & Hbranch);
    [reflexivity | reflexivity | reflexivity | cbn; lia | cbn; lia
    | reflexivity | reflexivity |].
  cbn in Hbranch.
  destruct Hbranch as (_ & _ & _ & _ & _ & Hty & Htime & _).
  exists ev, s'. auto.
Defined.

Lemma finish_dispatch_witness :
  let s := {| events := []; T := 10;
              philosophers := philosophers
                (Simulation_init 1 10 [1; 1; 1]%Q ([] : script));
              chopsticks := [{| is_free := true |}; {| is_free := false |};
                             {| is_free := false |}];
              gen := ([(3%N, 2%positive)] : script) |} in
  exists ev s',
    finish scripted 1 4 s = Ok (ev, s') /\
    chopsticks s' = [{| is_free := true |}; {| is_free := true |}; {| is_free := true |}].
Proof.
  intros s.
  destruct (finish_dispatch scripted scripted_nonneg s 1 4
              (set_chopsticks (Some 1) (Some 2) (Philosopher_init 1 1)) 1 2)
    as (ev & s' & p' & Hfin & _);
    [reflexivity | reflexivity | reflexivity | cbn; lia | cbn; lia
    | reflexivity | reflexivity | reflexivity |].
  exists ev, s'. split; [exact Hfin|].
  vm_compute in Hfin. by inversion Hfin.
Defined.

(** ** The ring built by [Simulation.__init__] *)

Section Ring.
Context {rng : Type}.

Lemma Simulation_init_philosophers (mi T : Q) (lambdas : list Q) (g : rng) i :
  philosophers (Simulation_init mi T lambdas g) !! i =
    (fun lambda_i =>
       set_chopsticks (Some i) (Some ((i + 1) mod length lambdas))
         (Philosopher_init mi lambda_i)) <$> lambdas !! i.
Proof.
  unfold Simulation_init. cbn.
  rewrite list_lookup_imap, !length_map.
  rewrite (list_lookup_fmap (Philosopher_init mi)).
  by destruct (lambdas !! i).
Qed.

Lemma Simulation_init_lengths (mi T : Q) (lambdas : list Q) (g : rng) :
  length (philosophers (Simulation_init mi T lambdas g)) = length lambdas /\
  length (chopsticks (Simulation_init mi T lambdas g)) = length lambdas.
Proof.
  unfold Simulation_init. cbn. by rewrite length_imap, !length_map.
Qed.

Lemma Simulation_init_chopsticks (mi T : Q) (lambdas : list Q) (g : rng) c :
  c < length lambdas ->
  chopsticks (Simulation_init mi T lambdas g) !! c = Some {| is_free := true |}.
Proof.
  intros Hc. unfold Simulation_init. cbn.
  rewrite !list_lookup_fmap.
  destruct (lookup_lt_is_Some_2 lambdas c Hc) as [x ->]. done.
Qed.

(** C6. In a simulation over N actors, actor [i] has chopstick [i] on
    its left and chopstick [(i + 1) mod N] on its right. *)
Theorem ring_wiring (mi T : Q) (lambdas : list Q) (g : rng) (i : nat) :
  i < length lambdas ->
  let s := Simulation_init mi T lambdas g in
  length (philosophers s) = length lambdas /\
  length (chopsticks s) = length lambdas /\
  exists p,
    philosophers s !! i = Some p /\
    left_chopstick p = Some i /\
    right_chopstick p = Some ((i + 1) mod length lambdas).
Proof.
  intros Hi s. subst s.
  destruct (Simulation_init_lengths mi T lambdas g) as [-> ->].
  split; [done|]. split; [done|].
  destruct (lookup_lt_is_Some_2 lambdas i Hi) as [x Hx].
  eexists. rewrite Simulation_init_philosophers, Hx. cbn. eauto.
Qed.
End Ring.

(** The table of five: actor 3 sits between chopsticks 3 and 4, actor 4
    between chopsticks 4 and 0. *)
Lemma ring_wiring_witness :
  let s := Simulation_init 1 10 [1; 1; 1; 1; 1]%Q tt in
  (exists p, philosophers s !! 3 = Some p /\
             left_chopstick p = Some 3 /\ right_chopstick p = Some 4) /\
  (exists p, philosophers s !! 4 = Some p /\
             left_chopstick p = Some 4 /\ right_chopstick p = Some 0).
Proof.
  intros s. split.
  - destruct (ring_wiring 1 10 [1; 1; 1; 1; 1]%Q tt 3) as (_ & _ & Hp);
      [cbn; lia | exact Hp].
  - destruct (ring_wiring 1 10 [1; 1; 1; 1; 1]%Q tt 4) as (_ & _ & Hp);
      [cbn; lia | exact Hp].
Defined.

(** ** The checks of the [__main__] block *)

Section Validation.
Import toplevel.

Lemma check_n_false (N : Z) :
  (N <? 2)%Z || negb (N mod 2 =? 1)%Z = false <->
  (3 <= N)%Z /\ Z.odd N = true.
Proof.
  rewrite orb_false_iff, negb_false_iff, Z.ltb_ge, Z.eqb_eq.
  rewrite <- Z.bit0_mod, Z.bit0_odd. split.
  - intros [H2 Hm]. split.
    + destruct (decide (N = 2%Z)) as [->|]; [done|lia].
    + by destruct (Z.odd N).
  - intros [H3 ->]. split; [lia|done].
Qed.

Lemma check_mi_false (m : option Q) :
  truthy_float m && Qle_bool (default 0%Q m) 0 = false <->
  (forall v, m = Some v -> (0 <= v)%Q).
Proof.
  destruct m as [v|]; cbn.
  - split.
    + intros H w [= <-]. apply andb_false_iff in H as [H|H].
      * apply negb_false_iff, Qeq_bool_iff in H. lra.
      * apply Qlt_le_weak, Qnot_le_lt. intros Hle.
        apply Qle_bool_iff in Hle. congruence.
    + intros H. specialize (H v eq_refl).
      destruct (Qeq_bool v 0) eqn:E; [done|]. cbn.
      destruct (Qle_bool v 0) eqn:E'; [|done].
      apply Qle_bool_iff in E'. assert (v == 0)%Q as Hz by lra.
      apply Qeq_bool_iff in Hz. congruence.
  - split; [by intros _ ?|done].
Qed.

Lemma existsb_Qle_false (l : list Q) :
  existsb (fun x => Qle_bool x 0) l = false <-> Forall (fun x => (0 < x)%Q) l.
Proof.
  induction l as [|x l IH]; cbn.
  - split; [constructor|done].
  - rewrite orb_false_iff, IH, Forall_cons. apply and_iff_compat_r.
    split.
    + intros H. apply Qnot_le_lt. intros Hle.
      apply Qle_bool_iff in Hle. congruence.
    + intros H. destruct (Qle_bool x 0) eqn:E; [|done].
      apply Qle_bool_iff in E. lra.
Qed.

Lemma check_lambdas_false (ls : option (list Q)) :
  truthy_list ls
    && existsb (fun lambda_i => Qle_bool lambda_i 0) (default [] ls) = false <->
  (forall l, ls = Some l -> Forall (fun x => (0 < x)%Q) l).
Proof.
  destruct ls as [[|x l]|]; cbn [truthy_list default andb].
  - split; [intros _ ? [= <-]; constructor|done].
  - rewrite existsb_Qle_false. split; [by intros H ? [= <-]|eauto].
  - split; [by intros _ ?|done].
Qed.

Lemma override_n_fields (args : Namespace) :
  T (override_n args) = T args /\ mi (override_n args) = mi args /\
  lambdas (override_n args) = lambdas args.
Proof. unfold override_n. by destruct (truthy_list _). Qed.

(** X1. What the four checks let through: N odd and at least 3, T at least
    1, a supplied mi that is not negative (zero passes: it is false as a
    truth value, so its sign is never looked at), and supplied lambdas
    all positive. *)
Lemma validate_accepts_iff (args : Namespace) :
  validate args = Ok (override_n args) <->
  ((3 <= n (override_n args))%Z /\ Z.odd (n (override_n args)) = true) /\
  (1 <= T args)%Z /\
  (forall m, mi args = Some m -> (0 <= m)%Q) /\
  (forall l, lambdas args = Some l -> Forall (fun x => (0 < x)%Q) l).
Proof.
  rewrite <- check_n_false, <- check_mi_false, <- check_lambdas_false.
  rewrite <- Z.ltb_ge.
  unfold validate.
  destruct (override_n_fields args) as (-> & -> & ->).
  destruct (_ || _); [split; [done|by intros [? _]]|].
  destruct (T args <? 1)%Z; [split; [done|by intros (_ & ? & _)]|].
  destruct (truthy_float _ && _); [split; [done|by intros (_ & _ & ? & _)]|].
  destruct (truthy_list _ && _); [split; [done|by intros (_ & _ & _ & ?)]|].
  done.
Qed.

Lemma validate_Ok_inv (args args' : Namespace) :
  validate args = Ok args' -> args' = override_n args.
Proof.
  unfold validate.
  repeat (match goal with |- context [if ?b then _ else _] => destruct b end;
          try done).
  by intros [= <-].
Qed.

(** C8, at the input [-mi 0 -lambdas 1 1 1]: the checks pass (no
    [ValueError]), the module-level [run] hands the zero rate to the
    simulation, and the first successful request divides by it. *)
Theorem zero_mi_not_rejected {rng : Type} (expovariate : Q -> rng -> Q * rng)
    (uniform_round : rng -> Q * rng) (fuel : nat) (g : rng) :
  let args := {| n := 5; T := 500; mi := Some 0%Q;
                 lambdas := Some [1; 1; 1]%Q |} in
  validate args = Ok {| n := 3; T := 500; mi := Some 0%Q;
                        lambdas := Some [1; 1; 1]%Q |} /\
  run expovariate uniform_round fuel 3 500 (Some 0%Q) (Some [1; 1; 1]%Q) g
    = Some (Raise ZeroDivisionError).
Proof. split; reflexivity. Qed.
End Validation.

(** ** [heapq]: what [heappush] and [heappop] guarantee *)

Module heapq_facts.
Import heapq.
Section heapq_facts.
Context {A : Type} `{!Inhabited A} (lt : A -> A -> bool).

(** Overwriting slot [i] trades the old item for the new one. *)
Lemma insert_Permutation (l : list A) i a b :
  l !! i = Some a -> a :: <[i := b]> l ≡ₚ b :: l.
Proof.
  revert i. induction l as [|x l IH]; intros [|i] H; try done.
  - cbn in H. injection H as ->. cbn. apply perm_swap.
  - cbn in H. cbn. rewrite (perm_swap x a), (IH _ H).
    apply perm_swap.
Qed.

Lemma lookup_total_Some (l : list A) i : i < length l -> l !! i = Some (l !!! i).
Proof. intros H. by apply list_lookup_lookup_total_lt. Qed.

Lemma siftdown_loop_S fuel (heap : list A) startpos pos newitem :
  siftdown_loop lt (S fuel) heap startpos pos newitem =
    if decide (startpos < pos) then
      if lt newitem (heap !!! parent pos)
      then siftdown_loop lt fuel (<[pos := heap !!! parent pos]> heap)
             startpos (parent pos) newitem
      else <[pos := newitem]> heap
    else <[pos := newitem]> heap.
Proof. reflexivity. Qed.

Lemma parent_lt pos : 0 < pos -> parent pos < pos.
Proof. unfold parent. intros H. apply Nat.Div0.div_lt_upper_bound; lia. Qed.

Lemma siftdown_loop_Permutation fuel (heap : list A) startpos pos newitem :
  pos < length heap ->
  heap !!! pos :: siftdown_loop lt fuel heap startpos pos newitem ≡ₚ newitem :: heap.
Proof.
  revert heap pos. induction fuel as [|fuel IH]; intros heap pos Hpos.
  { by apply insert_Permutation, lookup_total_Some. }
  rewrite siftdown_loop_S.
  destruct (decide (startpos < pos)) as [Hsp|];
    [|by apply insert_Permutation, lookup_total_Some].
  destruct (lt newitem (heap !!! parent pos)) eqn:Hlt;
    [|by apply insert_Permutation, lookup_total_Some].
  assert (parent pos < pos) as Hpp by (apply parent_lt; lia).
  set (heap' := <[pos := heap !!! parent pos]> heap).
  assert (heap' !!! parent pos = heap !!! parent pos) as Hsame.
  { subst heap'. rewrite list_lookup_total_insert_ne; [done|lia]. }
  specialize (IH heap' (parent pos)).
  rewrite Hsame in IH.
  apply (Permutation_cons_inv (a := heap !!! parent pos)).
  etrans; [apply perm_swap|].
  rewrite IH by (subst heap'; rewrite length_insert; lia).
  etrans; [apply perm_swap|].
  subst heap'. rewrite (insert_Permutation heap pos) by by apply lookup_total_Some.
  apply perm_swap.
Qed.

Lemma siftdown_Permutation (heap : list A) startpos pos :
  pos < length heap -> _siftdown lt heap startpos pos ≡ₚ heap.
Proof.
  intros Hpos. unfold _siftdown.
  apply (Permutation_cons_inv (a := heap !!! pos)).
  by apply siftdown_loop_Permutation.
Qed.

Lemma heappush_Permutation (heap : list A) item :
  heappush lt heap item ≡ₚ item :: heap.
Proof.
  unfold heappush. rewrite siftdown_Permutation.
  - by rewrite Permutation_app_comm.
  - rewrite length_app. cbn. lia.
Qed.

Lemma siftup_loop_S fuel (heap : list A) endpos pos :
  siftup_loop lt (S fuel) heap endpos pos =
    if decide (2 * pos + 1 < endpos) then
      let childpos :=
        if bool_decide (2 * pos + 1 + 1 < endpos)
           && negb (lt (heap !!! (2 * pos + 1)) (heap !!! (2 * pos + 1 + 1)))
        then 2 * pos + 1 + 1 else 2 * pos + 1 in
      siftup_loop lt fuel (<[pos := heap !!! childpos]> heap) endpos childpos
    else (heap, pos).
Proof. reflexivity. Qed.

(** The child that [_siftup] moves up is one of the two, and in range. *)
Lemma chosen_child_range (heap : list A) endpos pos :
  2 * pos + 1 < endpos ->
  let childpos :=
    if bool_decide (2 * pos + 1 + 1 < endpos)
       && negb (lt (heap !!! (2 * pos + 1)) (heap !!! (2 * pos + 1 + 1)))
    then 2 * pos + 1 + 1 else 2 * pos + 1 in
  (childpos = 2 * pos + 1 \/ childpos = 2 * pos + 2) /\ childpos < endpos.
Proof.
  intros H. cbv zeta.
  destruct (bool_decide_reflect (2 * pos + 1 + 1 < endpos)); cbn [andb];
    [destruct (negb _)|]; lia.
Qed.

Lemma siftup_loop_Permutation fuel (heap : list A) pos h' leaf :
  pos < length heap ->
  siftup_loop lt fuel heap (length heap) pos = (h', leaf) ->
  length h' = length heap /\ pos <= leaf < length heap /\
  h' !!! leaf :: heap ≡ₚ heap !!! pos :: h'.
Proof.
  revert heap pos. induction fuel as [|fuel IH]; intros heap pos Hpos.
  { intros [= <- <-]. split; [done|]. split; [lia|done]. }
  rewrite siftup_loop_S.
  destruct (decide (2 * pos + 1 < length heap)) as [Hchild|];
    [|intros [= <- <-]; split; [done|]; split; [lia|done]].
  pose proof (chosen_child_range heap (length heap) pos Hchild) as Hc.
  cbv zeta in *.
  set (childpos := if _ && _ then _ else _) in *.
  destruct Hc as [Hc Hlt].
  set (heap' := <[pos := heap !!! childpos]> heap).
  assert (length heap' = length heap) as Hlen by (subst heap'; apply length_insert).
  rewrite <- Hlen. intros Hloop.
  apply IH in Hloop as (Hl' & Hleaf & Hperm); [|lia].
  split; [congruence|]. split; [lia|].
  assert (heap' !!! childpos = heap !!! childpos) as Hsame.
  { subst heap'. rewrite list_lookup_total_insert_ne; [done|lia]. }
  rewrite Hsame in Hperm.
  apply (Permutation_cons_inv (a := heap !!! childpos)).
  etrans; [apply perm_swap|].
  rewrite <- (insert_Permutation heap pos (heap !!! pos) (heap !!! childpos))
    by by apply lookup_total_Some.
  fold heap'. etrans; [apply perm_swap|].
  rewrite Hperm. apply perm_swap.
Qed.

Lemma siftup_Permutation (heap : list A) pos :
  pos < length heap -> _siftup lt heap pos ≡ₚ heap.
Proof.
  intros Hpos. unfold _siftup.
  destruct (siftup_loop lt (length heap) heap (length heap) pos) as [h' leaf] eqn:E.
  apply siftup_loop_Permutation in E as (Hlen & Hleaf & Hperm); [|done].
  rewrite siftdown_Permutation by (rewrite length_insert; lia).
  apply (Permutation_cons_inv (a := h' !!! leaf)).
  rewrite insert_Permutation by (apply lookup_total_Some; lia).
  by symmetry.
Qed.

(** [heap.pop()]: the last item and what is in front of it. *)
Lemma last_take_snoc (heap : list A) lastelt :
  last heap = Some lastelt -> heap = take (length heap - 1) heap ++ [lastelt].
Proof.
  intros H. destruct (last_Some heap lastelt) as [[l' ->] _]; [done|].
  rewrite length_app. cbn.
  replace (length l' + 1 - 1) with (length l') by lia.
  by rewrite take_app_length.
Qed.

Lemma heappop_nil : heappop lt ([] : list A) = Raise IndexError.
Proof. reflexivity. Qed.

Lemma heappop_Raise (heap : list A) e :
  heappop lt heap = Raise e -> heap = [] /\ e = IndexError.
Proof.
  unfold heappop. destruct (last heap) as [x|] eqn:E.
  - by destruct (take _ _).
  - apply last_None in E. by intros [= <-].
Qed.

Lemma heappop_Permutation (heap : list A) item heap' :
  heappop lt heap = Ok (item, heap') -> item :: heap' ≡ₚ heap.
Proof.
  unfold heappop. destruct (last heap) as [lastelt|] eqn:E; [|done].
  apply last_take_snoc in E. revert E.
  generalize (take (length heap - 1) heap). intros [|returnitem tl] ->.
  - by intros [= <- <-].
  - intros [= <- <-]. cbn [list_insert insert].
    rewrite siftup_Permutation by (cbn; lia).
    cbn. f_equiv. by rewrite Permutation_app_comm.
Qed.

(** *** Heap order, for a comparison that is a strict weak order *)

Hypothesis lt_asym : forall a b, lt a b = true -> lt b a = false.
Hypothesis le_trans :
  forall a b c, lt b a = false -> lt c b = false -> lt c a = false.

Lemma parent_child c pos :
  0 < c -> parent c = pos -> c = 2 * pos + 1 \/ c = 2 * pos + 2.
Proof.
  unfold parent. intros Hc <-.
  pose proof (Nat.div_mod_eq (c - 1) 2) as Hd.
  pose proof (Nat.mod_upper_bound (c - 1) 2). lia.
Qed.

Lemma child_parent c pos :
  c = 2 * pos + 1 \/ c = 2 * pos + 2 -> parent c = pos.
Proof.
  unfold parent. intros [-> | ->].
  - replace (2 * pos + 1 - 1) with (pos * 2) by lia. apply Nat.div_mul. lia.
  - replace (2 * pos + 2 - 1) with (1 + pos * 2) by lia.
    rewrite Nat.div_add by lia. done.
Qed.

Lemma heap_except_insert (heap : list A) pos x :
  heap_except lt heap pos -> heap_except lt (<[pos := x]> heap) pos.
Proof.
  intros [H1 H2]. split.
  - intros i Hi Hne Hpne. rewrite length_insert in Hi.
    rewrite !list_lookup_total_insert_ne by done. by apply H1.
  - intros c Hpos Hc Hpc. rewrite length_insert in Hc.
    pose proof (parent_lt c ltac:(lia)). pose proof (parent_lt pos Hpos).
    rewrite !list_lookup_total_insert_ne by lia. by apply H2.
Qed.

Lemma is_heap_except (heap : list A) :
  is_heap lt heap -> heap_except lt heap 0.
Proof.
  intros H. split; [|intros; lia].
  intros i Hi _ _. by apply H.
Qed.

(** Filling the hole with an item that fits between the neighbours. *)
Lemma fill_hole (heap : list A) pos newitem :
  pos < length heap ->
  heap_except lt heap pos ->
  (forall c, 0 < c < length heap -> parent c = pos ->
             lt (heap !!! c) newitem = false) ->
  (0 < pos -> lt newitem (heap !!! parent pos) = false) ->
  is_heap lt (<[pos := newitem]> heap).
Proof.
  intros Hpos [H1 H2] Hchildren Hparent i Hi.
  rewrite length_insert in Hi.
  destruct (decide (i = pos)) as [->|Hne].
  - pose proof (parent_lt pos ltac:(lia)).
    rewrite list_lookup_total_insert_eq by done.
    rewrite list_lookup_total_insert_ne by lia. apply Hparent. lia.
  - rewrite (list_lookup_total_insert_ne _ pos i) by done.
    destruct (decide (parent i = pos)) as [Hp|Hp].
    + rewrite Hp, list_lookup_total_insert_eq by done. by apply Hchildren.
    + rewrite list_lookup_total_insert_ne by done. by apply H1.
Qed.

Lemma siftdown_loop_heap fuel (heap : list A) pos newitem :
  pos <= fuel -> pos < length heap ->
  heap_except lt heap pos ->
  (forall c, 0 < c < length heap -> parent c = pos ->
             lt (heap !!! c) newitem = false) ->
  is_heap lt (siftdown_loop lt fuel heap 0 pos newitem).
Proof.
  revert heap pos.
  induction fuel as [|fuel IH]; intros heap pos Hfuel Hpos Hex Hchildren.
  { apply fill_hole; [done..|lia]. }
  rewrite siftdown_loop_S.
  destruct (decide (0 < pos)) as [H0|]; [|apply fill_hole; [done..|lia]].
  destruct (lt newitem (heap !!! parent pos)) eqn:Hlt;
    [|by apply fill_hole].
  pose proof (parent_lt pos H0) as Hpp.
  destruct Hex as [H1 H2].
  assert (forall j, j <> pos ->
            <[pos := heap !!! parent pos]> heap !!! j = heap !!! j) as Hother.
  { intros j Hj. by rewrite list_lookup_total_insert_ne. }
  assert (<[pos := heap !!! parent pos]> heap !!! pos = heap !!! parent pos)
    as Hhole by by rewrite list_lookup_total_insert_eq.
  assert (forall c, 0 < c < length heap -> c <> pos -> parent c = parent pos ->
            lt (heap !!! c) (heap !!! parent pos) = false) as Hsibling.
  { intros c Hc Hne Hpc. rewrite <- Hpc. apply H1; [done..|].
    rewrite Hpc. lia. }
  apply IH; [lia | rewrite length_insert; lia | |].
  - split.
    + intros i Hi Hne Hpne. rewrite length_insert in Hi.
      destruct (decide (i = pos)) as [->|Hip]; [done|].
      rewrite (Hother i) by done.
      destruct (decide (parent i = pos)) as [Hp|Hp].
      * rewrite Hp, Hhole. by apply H2.
      * rewrite Hother by done. by apply H1.
    + intros c Hpar Hc Hpc. rewrite length_insert in Hc.
      pose proof (parent_lt (parent pos) Hpar).
      rewrite (Hother (parent (parent pos))) by lia.
      assert (lt (heap !!! parent pos) (heap !!! parent (parent pos)) = false)
        as Hgp by (apply H1; lia).
      destruct (decide (c = pos)) as [->|Hcp]; [by rewrite Hhole|].
      rewrite Hother by done.
      eapply le_trans; [exact Hgp|]. by apply Hsibling.
  - intros c Hc Hpc. rewrite length_insert in Hc.
    destruct (decide (c = pos)) as [->|Hcp].
    + rewrite Hhole. by apply lt_asym.
    + rewrite Hother by done.
      eapply le_trans; [apply lt_asym, Hlt|]. by apply Hsibling.
Qed.

Lemma heappush_heap (heap : list A) item :
  is_heap lt heap -> is_heap lt (heappush lt heap item).
Proof.
  intros Hheap. unfold heappush, _siftdown.
  rewrite length_app. cbn [length].
  replace (length heap + 1 - 1) with (length heap) by lia.
  apply siftdown_loop_heap; [done | rewrite length_app; cbn; lia | |].
  - split.
    + intros i Hi Hne _. rewrite length_app in Hi. cbn in Hi.
      pose proof (parent_lt i ltac:(lia)).
      rewrite !lookup_total_app_l by lia. apply Hheap. lia.
    + intros c _ Hc Hpc. rewrite length_app in Hc. cbn in Hc.
      pose proof (parent_lt c ltac:(lia)). lia.
  - intros c Hc Hpc. rewrite length_app in Hc. cbn in Hc.
    pose proof (parent_lt c ltac:(lia)). lia.
Qed.

(** The child that moves up is not larger than its sibling. *)
Lemma chosen_child_le (heap : list A) endpos pos i :
  2 * pos + 1 < endpos ->
  let childpos :=
    if bool_decide (2 * pos + 1 + 1 < endpos)
       && negb (lt (heap !!! (2 * pos + 1)) (heap !!! (2 * pos + 1 + 1)))
    then 2 * pos + 1 + 1 else 2 * pos + 1 in
  i < endpos -> i = 2 * pos + 1 \/ i = 2 * pos + 2 -> i <> childpos ->
  lt (heap !!! i) (heap !!! childpos) = false.
Proof.
  intros H. cbv zeta.
  destruct (bool_decide_reflect (2 * pos + 1 + 1 < endpos)) as [Hr|Hr];
    cbn [andb].
  - destruct (lt (heap !!! (2 * pos + 1)) (heap !!! (2 * pos + 1 + 1))) eqn:E;
      cbn [negb]; intros Hi [-> | ->] Hne; try lia.
    + replace (2 * pos + 2) with (2 * pos + 1 + 1) by lia. by apply lt_asym.
    + done.
  - intros Hi [-> | ->] Hne; lia.
Qed.

Lemma siftup_loop_heap fuel (heap : list A) pos h' leaf :
  length heap <= fuel + pos -> pos < length heap ->
  heap_except lt heap pos ->
  siftup_loop lt fuel heap (length heap) pos = (h', leaf) ->
  heap_except lt h' leaf /\ length heap <= 2 * leaf + 1.
Proof.
  revert heap pos.
  induction fuel as [|fuel IH]; intros heap pos Hfuel Hpos Hex; [lia|].
  rewrite siftup_loop_S.
  destruct (decide (2 * pos + 1 < length heap)) as [Hchild|];
    [|intros [= <- <-]; split; [done|lia]].
  pose proof (chosen_child_range heap (length heap) pos Hchild) as Hc.
  pose proof (fun i => chosen_child_le heap (length heap) pos i Hchild) as Hle.
  cbv zeta in *.
  set (childpos := if _ && _ then _ else _) in *.
  destruct Hc as [Hc Hlt].
  pose proof (child_parent childpos pos Hc) as Hpc.
  set (heap' := <[pos := heap !!! childpos]> heap).
  assert (length heap' = length heap) as Hlen by (subst heap'; apply length_insert).
  rewrite <- Hlen. intros Hloop.
  destruct Hex as [H1 H2].
  assert (forall j, j <> pos -> heap' !!! j = heap !!! j) as Hother.
  { intros j Hj. subst heap'. by rewrite list_lookup_total_insert_ne. }
  assert (heap' !!! pos = heap !!! childpos) as Hhole.
  { subst heap'. by rewrite list_lookup_total_insert_eq. }
  assert (heap_except lt heap' childpos) as Hex'.
  { split.
    - intros i Hi Hne Hpne. rewrite Hlen in Hi.
      destruct (decide (i = pos)) as [->|Hip].
      + pose proof (parent_lt pos ltac:(lia)).
        rewrite Hhole, Hother by lia. apply H2; [lia|lia|done].
      + rewrite (Hother i) by done.
        destruct (decide (parent i = pos)) as [Hp|Hp].
        * rewrite Hp, Hhole. apply Hle; [lia| |done].
          apply parent_child; [lia|done].
        * rewrite Hother by done. by apply H1.
    - intros d Hcpos Hd Hpd. rewrite Hlen in Hd.
      rewrite Hpc, Hhole.
      pose proof (parent_lt d ltac:(lia)).
      rewrite Hother by lia. rewrite <- Hpd. apply H1; [done|lia|lia]. }
  apply IH in Hloop as [Hfin Hleaf]; [|lia|lia|done].
  split; [done|lia].
Qed.

Lemma siftup_heap (heap : list A) :
  0 < length heap -> heap_except lt heap 0 -> is_heap lt (_siftup lt heap 0).
Proof.
  intros Hlen Hex. unfold _siftup.
  destruct (siftup_loop lt (length heap) heap (length heap) 0) as [h' leaf] eqn:E.
  pose proof (siftup_loop_Permutation _ _ _ _ _ Hlen E) as (Hl' & Hleaf & _).
  apply siftup_loop_heap in E as [Hex' Hnochild]; [|lia|done|done].
  unfold _siftdown.
  apply siftdown_loop_heap; [done | rewrite length_insert; lia | |].
  - by apply heap_except_insert.
  - intros c Hc Hpc. rewrite length_insert in Hc.
    apply parent_child in Hpc; lia.
Qed.

Lemma is_heap_app_l (l1 l2 : list A) : is_heap lt (l1 ++ l2) -> is_heap lt l1.
Proof.
  intros H i Hi. specialize (H i). rewrite length_app in H.
  pose proof (parent_lt i ltac:(lia)).
  rewrite !lookup_total_app_l in H by lia. apply H. lia.
Qed.

Lemma is_heap_nil : is_heap lt ([] : list A).
Proof. intros i Hi. cbn in Hi. lia. Qed.

Lemma heappop_heap (heap : list A) item heap' :
  is_heap lt heap -> heappop lt heap = Ok (item, heap') -> is_heap lt heap'.
Proof.
  intros Hheap. unfold heappop.
  destruct (last heap) as [lastelt|] eqn:E; [|done].
  apply last_take_snoc in E. revert E.
  generalize (take (length heap - 1) heap). intros init E.
  rewrite E in Hheap. apply is_heap_app_l in Hheap.
  destruct init as [|returnitem tl].
  - intros [= <- <-]. apply is_heap_nil.
  - intros [= <- <-]. apply siftup_heap.
    + cbn. lia.
    + by apply (heap_except_insert (returnitem :: tl) 0 lastelt), is_heap_except.
Qed.

(** [heappop] answers the item at the root. *)
Lemma heappop_root (heap : list A) item heap' :
  heappop lt heap = Ok (item, heap') -> heap !! 0 = Some item.
Proof.
  unfold heappop. destruct (last heap) as [lastelt|] eqn:E; [|done].
  apply last_take_snoc in E. revert E.
  generalize (take (length heap - 1) heap). intros [|returnitem tl] ->.
  - by intros [= <- <-].
  - by intros [= <- <-].
Qed.

(** In a heap no item is smaller than the root. *)
Lemma is_heap_root_min (heap : list A) i :
  is_heap lt heap -> i < length heap -> lt (heap !!! i) (heap !!! 0) = false.
Proof.
  intros Hheap. induction (lt_wf i) as [i _ IH]. intros Hi.
  destruct (decide (i = 0)) as [->|Hne].
  - destruct (lt (heap !!! 0) (heap !!! 0)) eqn:E; [|done].
    by rewrite (lt_asym _ _ E) in E.
  - pose proof (parent_lt i ltac:(lia)).
    apply (le_trans _ (heap !!! parent i)); [apply IH; lia|].
    apply Hheap. lia.
Qed.

Lemma heappop_min (heap : list A) item heap' x :
  is_heap lt heap -> heappop lt heap = Ok (item, heap') ->
  x ∈ heap -> lt x item = false.
Proof.
  intros Hheap Hpop Hx.
  apply heappop_root in Hpop.
  apply list_elem_of_lookup in Hx as [i Hi].
  pose proof (lookup_lt_Some _ _ _ Hi) as Hlt.
  pose proof (is_heap_root_min heap i Hheap Hlt) as Hmin.
  by rewrite (lookup_total_of_lookup _ _ _ Hi),
             (lookup_total_of_lookup _ _ _ Hpop) in Hmin.
Qed.
End heapq_facts.
End heapq_facts.

(** ** The order of events *)

Lemma Event_lt_false a b : Event_lt a b = false <-> (time b <= time a)%Q.
Proof. apply Qltb_false. Qed.

Lemma Event_lt_asym a b : Event_lt a b = true -> Event_lt b a = false.
Proof.
  unfold Event_lt. rewrite Qltb_true, Qltb_false. apply Qlt_le_weak.
Qed.

Lemma Event_le_trans a b c :
  Event_lt b a = false -> Event_lt c b = false -> Event_lt c a = false.
Proof. rewrite !Event_lt_false. intros. by apply Qle_trans with (time b). Qed.

(** The event queue is a heap for [Event.__lt__]. *)
Lemma events_heappush_heap heap event :
  heapq.is_heap Event_lt heap ->
  heapq.is_heap Event_lt (heapq.heappush Event_lt heap event).
Proof. apply heapq_facts.heappush_heap; [apply Event_lt_asym|apply Event_le_trans]. Qed.

Lemma events_heappop_heap heap event heap' :
  heapq.is_heap Event_lt heap ->
  heapq.heappop Event_lt heap = Ok (event, heap') ->
  heapq.is_heap Event_lt heap'.
Proof. apply heapq_facts.heappop_heap; [apply Event_lt_asym|apply Event_le_trans]. Qed.

(** [heappop] answers an earliest event. *)
Lemma events_heappop_min heap event heap' x :
  heapq.is_heap Event_lt heap ->
  heapq.heappop Event_lt heap = Ok (event, heap') ->
  x ∈ heap -> (time event <= time x)%Q.
Proof.
  intros Hheap Hpop Hx. apply Event_lt_false.
  eapply heapq_facts.heappop_min; eauto using Event_lt_asym, Event_le_trans.
Qed.

(** ** One turn of the loop *)

Section Turn.
Context {rng : Type} (expovariate : Q -> rng -> Q * rng).
Implicit Types s : Simulation (rng := rng).

(** What a handler leaves alone. *)
Lemma request_frame s self t ev s' :
  request expovariate self t s = Ok (ev, s') ->
  T s' = T s /\ events s' = events s /\ philosopher ev = self /\
  length (philosophers s') = length (philosophers s) /\
  length (chopsticks s') = length (chopsticks s).
Proof.
  unfold request, ref_is_free, ref_pick_up, draw. cbn.
  repeat (match goal with
          | |- context [match ?x with _ => _ end] => destruct x eqn:?
          end; cbn; try done);
    intros [= <- <-]; cbn; by rewrite ?length_insert.
Qed.

Lemma finish_frame s self t ev s' :
  finish expovariate self t s = Ok (ev, s') ->
  T s' = T s /\ events s' = events s /\ philosopher ev = self /\
  type ev = REQUEST /\
  length (philosophers s') = length (philosophers s) /\
  length (chopsticks s') = length (chopsticks s).
Proof.
  unfold finish, ref_put_down, draw. cbn.
  repeat (match goal with
          | |- context [match ?x with _ => _ end] => destruct x eqn:?
          end; cbn; try done);
    intros [= <- <-]; cbn; by rewrite ?length_insert.
Qed.

(** A turn pops, dispatches on the type of the event, and pushes the
    follow-up event. *)
Lemma iteration_Ok_inv s event s' :
  iteration expovariate s = Ok (event, s') ->
  exists heap next s1,
    heapq.heappop Event_lt (events s) = Ok (event, heap) /\
    match type event with
    | REQUEST => request expovariate (philosopher event) (time event) (set_events heap s)
    | FINISH => finish expovariate (philosopher event) (time event) (set_events heap s)
    end = Ok (next, s1) /\
    s' = set_events (heapq.heappush Event_lt heap next) s1 /\
    events s1 = heap /\ philosopher next = philosopher event.
Proof.
  unfold iteration. cbn.
  destruct (heapq.heappop Event_lt (events s)) as [[ev heap]|] eqn:Hpop; [|done].
  cbn.
  destruct (match type ev with
            | REQUEST => request expovariate (philosopher ev) (time ev) (set_events heap s)
            | FINISH => finish expovariate (philosopher ev) (time ev) (set_events heap s)
            end) as [[next s1]|] eqn:Hh; [|done].
  cbn. intros [= <- <-].
  assert (events s1 = heap /\ philosopher next = philosopher ev) as [He Hn].
  { destruct (type ev).
    - by apply request_frame in Hh as (_ & -> & -> & _).
    - by apply finish_frame in Hh as (_ & -> & -> & _). }
  exists heap, next, s1. by rewrite He.
Qed.

Lemma iteration_frame s event s' :
  iteration expovariate s = Ok (event, s') ->
  T s' = T s /\
  length (philosophers s') = length (philosophers s) /\
  length (chopsticks s') = length (chopsticks s) /\
  length (events s') = length (events s).
Proof.
  intros (heap & next & s1 & Hpop & Hh & -> & He & Hn)%iteration_Ok_inv.
  apply heapq_facts.heappop_Permutation, Permutation_length in Hpop.
  cbn -[heapq.heappush].
  rewrite (Permutation_length (heapq_facts.heappush_Permutation _ _ _)).
  cbn in Hpop. rewrite <- Hpop.
  destruct (type event).
  - by apply request_frame in Hh as (-> & _ & _ & -> & ->).
  - by apply finish_frame in Hh as (-> & _ & _ & _ & -> & ->).
Qed.

(** A turn raises [IndexError] only on an empty queue. *)
Lemma iteration_Raise s e :
  iteration expovariate s = Raise e ->
  (e = IndexError /\ events s = []) \/
  (events s <> [] /\ (e = AttributeError \/ e = ZeroDivisionError)).
Proof.
  unfold iteration. cbn.
  destruct (heapq.heappop Event_lt (events s)) as [[ev heap]|e'] eqn:Hpop; cbn.
  - assert (events s <> []) as Hne.
    { intros Hnil. by rewrite Hnil in Hpop. }
    destruct (type ev).
    + destruct (request _ _ _ _) as [[next s1]|e'] eqn:Hh; [done|].
      cbn. intros [= <-]. right. eauto using request_Raise.
    + destruct (finish _ _ _ _) as [[next s1]|e'] eqn:Hh; [done|].
      cbn. intros [= <-]. right. eauto using finish_Raise.
  - intros [= <-]. left. by apply heapq_facts.heappop_Raise in Hpop as [-> ->].
Qed.

(** *** Sequences of turns *)

Lemma turns_T s tr s' : turns expovariate s tr s' -> T s' = T s.
Proof.
  induction 1 as [|s ev s1 tr s2 Hit _ IH]; [done|].
  rewrite IH. by apply iteration_frame in Hit as [-> _].
Qed.

Lemma turns_app s tr1 s1 tr2 s2 :
  turns expovariate s tr1 s1 -> turns expovariate s1 tr2 s2 ->
  turns expovariate s (tr1 ++ tr2) s2.
Proof. induction 1; cbn; eauto using turns. Qed.

Lemma turns_snoc s tr s1 event s2 :
  turns expovariate s tr s1 -> iteration expovariate s1 = Ok (event, s2) ->
  turns expovariate s (tr ++ [(event, s2)]) s2.
Proof. intros H Hit. eapply turns_app; eauto using turns. Qed.

Lemma turns_app_inv s tr1 tr2 s2 :
  turns expovariate s (tr1 ++ tr2) s2 ->
  exists s1, turns expovariate s tr1 s1 /\ turns expovariate s1 tr2 s2.
Proof.
  revert s. induction tr1 as [|[ev sa] tr1 IH]; intros s; cbn.
  - eauto using turns.
  - inversion 1 as [|? ? ? ? ? Hit Hrest]; subst.
    destruct (IH _ Hrest) as (s1 & H1 & H2). eauto using turns.
Qed.

(** Induction that follows a run forward: the property holds at the
    start and every turn keeps it. *)
Lemma turns_ind_r s (P : list (Event * Simulation) -> Simulation -> Prop) :
  P [] s ->
  (forall tr s1 event s2,
      turns expovariate s tr s1 -> P tr s1 ->
      iteration expovariate s1 = Ok (event, s2) ->
      P (tr ++ [(event, s2)]) s2) ->
  forall tr s', turns expovariate s tr s' -> P tr s'.
Proof.
  intros Hnil Hstep tr. induction tr as [|[ev sa] tr IH] using rev_ind.
  - intros s' H. inversion H; by subst.
  - intros s' (s1 & H1 & H2)%turns_app_inv.
    inversion H2 as [|? ? ? ? ? Hit Hrest]; subst.
    inversion Hrest; subst. eauto.
Qed.
End Turn.

(** ** The [while] loop of [run] *)

Section Loop.
Context {rng : Type} (expovariate : Q -> rng -> Q * rng).
Implicit Types s : Simulation (rng := rng).

Lemma loop_eq fuel clock s :
  loop expovariate fuel clock s =
    if Qltb clock (T s) then
      match fuel with
      | O => None
      | S fuel =>
          match iteration expovariate s with
          | Raise e => Some (Raise e)
          | Ok (event, s) => loop expovariate fuel (time event) s
          end
      end
    else Some (Ok (set_events [] s)).
Proof. by destruct fuel. Qed.

(** The tests that pass are strictly below the horizon, and the clock
    that ends the loop is the first one at or beyond it. *)
Lemma stops_spec T clock times :
  stops T clock times <->
  Forall (fun t => (t < T)%Q) (removelast (clock :: times)) /\
  (T <= List.last times clock)%Q.
Proof.
  revert clock. induction times as [|t times IH]; intros clock.
  - cbn. split; [intros H; split; [constructor|done] | by intros [_ H]].
  - change (stops T clock (t :: times)) with ((clock < T)%Q /\ stops T t times).
    rewrite IH.
    change (removelast (clock :: t :: times))
      with (clock :: removelast (t :: times)).
    rewrite Forall_cons.
    assert (forall d, List.last (t :: times) d = List.last times t) as ->.
    { clear. revert t. induction times as [|u times IH]; intros t d; [done|].
      change (List.last (t :: u :: times) d) with (List.last (u :: times) d).
      by rewrite !IH. }
    tauto.
Qed.

(** A run that returns went through the seeding loop and then through
    turns of the [while] loop that end at the horizon. *)
Lemma run_history fuel s0 fin :
  run expovariate fuel s0 = Some (Ok fin) ->
  exists s1 tr s,
    seeded expovariate s0 s1 /\
    turns expovariate s1 tr s /\
    stops (T s1) 0 ((fun x => time x.1) <$> tr) /\
    fin = set_events [] s.
Proof.
  unfold run.
  destruct (seed expovariate (seq 0 (length (philosophers s0))) 0 s0)
    as [s1|] eqn:Hseed; [|done].
  intros Hloop. exists s1.
  assert (forall fuel clock s,
            loop expovariate fuel clock s = Some (Ok fin) ->
            exists tr s', turns expovariate s tr s' /\
                          stops (T s) clock ((fun x => time x.1) <$> tr) /\
                          fin = set_events [] s') as Hinv.
  { clear. intros fuel. induction fuel as [|fuel IH]; intros clock s;
      rewrite loop_eq; destruct (Qltb clock (T s)) eqn:Hlt; try done.
    - intros [= <-]. exists [], s. apply Qltb_false in Hlt.
      split; [constructor|done].
    - destruct (iteration expovariate s) as [[event sa]|] eqn:Hit; [|done].
      intros (tr & s' & Htr & Hstops & ->)%IH.
      exists ((event, sa) :: tr), s'. apply Qltb_true in Hlt.
      pose proof (iteration_frame _ _ _ _ Hit) as [HT _].
      rewrite HT in Hstops. split; [by econstructor|done].
    - intros [= <-]. exists [], s. apply Qltb_false in Hlt.
      split; [constructor|done]. }
  destruct (Hinv _ _ _ Hloop) as (tr & s & Htr & Hstops & ->).
  by exists tr, s.
Qed.
End Loop.

(** ** Safety of the table *)

Section Table.
Context {rng : Type} (expovariate : Q -> rng -> Q * rng).
Implicit Types s : Simulation (rng := rng).

(** Some FINISH event of actor [i] is in the queue. *)
Lemma eating_true s i :
  eating s i = true <->
  exists e, e ∈ events s /\ philosopher e = i /\ type e = FINISH.
Proof.
  unfold eating. rewrite existsb_exists. split.
  - intros (e & Hin & Hb). apply bool_decide_eq_true in Hb.
    exists e. by rewrite list_elem_of_In.
  - intros (e & Hin & Hb). exists e. rewrite <- list_elem_of_In.
    split; [done|]. by apply bool_decide_eq_true.
Qed.

Lemma eating_pushed s s2 ev i :
  events s2 ≡ₚ ev :: events s ->
  eating s2 i = true <->
  (philosopher ev = i /\ type ev = FINISH) \/ eating s i = true.
Proof.
  intros Hperm. rewrite !eating_true. setoid_rewrite Hperm.
  setoid_rewrite elem_of_cons. split.
  - intros (e & [-> | Hin] & H); [by left|right; eauto].
  - intros [H | (e & Hin & H)]; eauto.
Qed.

Lemma same_seat_refl p : same_seat p p.
Proof. by repeat split. Qed.

Lemma same_seats_refl (ps : list Philosopher) : Forall2 same_seat ps ps.
Proof.
  apply Forall2_same_length_lookup. split; [done|].
  intros i a b Ha Hb. rewrite Ha in Hb. injection Hb as <-.
  apply same_seat_refl.
Qed.

Lemma same_seats_trans (ps1 ps2 ps3 : list Philosopher) :
  Forall2 same_seat ps1 ps2 -> Forall2 same_seat ps2 ps3 ->
  Forall2 same_seat ps1 ps3.
Proof.
  apply Forall2_trans.
  intros a b c (? & ? & ? & ?) (? & ? & ? & ?). repeat split; congruence.
Qed.

Lemma same_seats_insert (ps : list Philosopher) self p p' :
  ps !! self = Some p -> same_seat p p' ->
  Forall2 same_seat ps (<[self := p']> ps).
Proof.
  intros Hp Hsame.
  rewrite <- (list_insert_id ps self p Hp) at 1.
  apply Forall2_insert; [|done].
  apply Forall2_same_length_lookup. split; [done|].
  intros i x y Hx Hy. rewrite Hx in Hy. injection Hy as <-.
  apply same_seat_refl.
Qed.

Lemma adjacent_same_seats s s2 i c :
  Forall2 same_seat (philosophers s) (philosophers s2) ->
  adjacent s2 i c <-> adjacent s i c.
Proof.
  intros HF. unfold adjacent. split.
  - intros (p2 & Hp2 & Hadj).
    destruct (Forall2_lookup_r _ _ _ _ _ HF Hp2) as (p1 & Hp1 & Hl & Hr & _).
    exists p1. by rewrite Hl, Hr.
  - intros (p1 & Hp1 & Hadj).
    destruct (Forall2_lookup_l _ _ _ _ _ HF Hp1) as (p2 & Hp2 & Hl & Hr & _).
    exists p2. by rewrite <- Hl, <- Hr.
Qed.

Lemma wired_same_seats s s2 :
  Forall2 same_seat (philosophers s) (philosophers s2) ->
  length (chopsticks s2) = length (chopsticks s) ->
  wired s -> wired s2.
Proof.
  intros HF Hlen Hw i p2 Hp2.
  destruct (Forall2_lookup_r _ _ _ _ _ HF Hp2) as (p1 & Hp1 & Hl & Hr & _).
  destruct (Hw i p1 Hp1) as (l & r & Hl1 & Hr1 & Hlt).
  exists l, r. by rewrite <- Hl, <- Hr, Hlen.
Qed.

Lemma positive_rates_same_seats s s2 :
  Forall2 same_seat (philosophers s) (philosophers s2) ->
  positive_rates s -> positive_rates s2.
Proof.
  intros HF Hpos p2 Hin. apply list_elem_of_lookup in Hin as [i Hp2].
  destruct (Forall2_lookup_r _ _ _ _ _ HF Hp2) as (p1 & Hp1 & _ & _ & Hm & Hla).
  rewrite <- Hm, <- Hla. apply Hpos. by eapply list_elem_of_lookup_2.
Qed.

(** The chopsticks next to a wired actor are its left and its right. *)
Lemma adjacent_wired s i p l r c :
  philosophers s !! i = Some p ->
  left_chopstick p = Some l -> right_chopstick p = Some r ->
  adjacent s i c <-> c = l \/ c = r.
Proof.
  intros Hp Hl Hr. unfold adjacent. split.
  - intros (p' & Hp' & Hadj). rewrite Hp in Hp'. injection Hp' as <-.
    rewrite Hl, Hr in Hadj. destruct Hadj as [[= ->] | [= ->]]; auto.
  - intros [-> | ->]; exists p; auto.
Qed.

(** A turn that changes neither the flags nor who is eating. *)
Lemma safe_same s s2 :
  safe s ->
  Forall2 same_seat (philosophers s) (philosophers s2) ->
  chopsticks s2 = chopsticks s ->
  (forall i, eating s2 i = true <-> eating s i = true) ->
  safe s2.
Proof.
  intros (Hw & Hf & Hx) HF Hcs Heat.
  assert (forall i c, holds s2 i c <-> holds s i c) as Hholds.
  { intros i c. unfold holds. by rewrite Heat, (adjacent_same_seats s s2). }
  split; [|split].
  - eapply wired_same_seats; eauto. by rewrite Hcs.
  - intros c Hc. rewrite Hcs in *. setoid_rewrite Hholds. by apply Hf.
  - intros i j c. rewrite !Hholds. apply Hx.
Qed.

(** A successful request: [self] takes its two chopsticks, both free. *)
Lemma safe_take s s2 self p l r :
  safe s ->
  philosophers s !! self = Some p ->
  left_chopstick p = Some l -> right_chopstick p = Some r ->
  is_free (chopsticks s !!! l) = true ->
  is_free (chopsticks s !!! r) = true ->
  Forall2 same_seat (philosophers s) (philosophers s2) ->
  chopsticks s2 =
    <[r := {| is_free := false |}]> (<[l := {| is_free := false |}]> (chopsticks s)) ->
  (forall i, eating s2 i = true <-> i = self \/ eating s i = true) ->
  safe s2.
Proof.
  intros (Hw & Hf & Hx) Hp Hl Hr Hfl Hfr HF Hcs Heat.
  destruct (Hw self p Hp) as (l' & r' & Hl' & Hr' & Hll & Hrl).
  rewrite Hl in Hl'. rewrite Hr in Hr'.
  injection Hl' as <-. injection Hr' as <-.
  assert (forall i c, holds s2 i c <->
            (i = self /\ (c = l \/ c = r)) \/ holds s i c) as Hholds.
  { intros i c. unfold holds.
    rewrite Heat, (adjacent_same_seats s s2) by done. split.
    - intros [[-> | He] Ha]; [left|by right].
      split; [done|]. by apply (adjacent_wired s self p l r).
    - intros [[-> Hc] | [He Ha]]; [|by auto].
      split; [by left|]. by apply (adjacent_wired s self p l r). }
  assert (forall c, c < length (chopsticks s) ->
            is_free (chopsticks s2 !!! c) = false <->
            (c = l \/ c = r) \/ is_free (chopsticks s !!! c) = false) as Hflag.
  { intros c Hc. rewrite Hcs.
    destruct (decide (c = r)) as [->|Hcr].
    { rewrite list_lookup_total_insert_eq by (by rewrite length_insert).
      cbn. tauto. }
    rewrite list_lookup_total_insert_ne by done.
    destruct (decide (c = l)) as [->|Hcl].
    { rewrite list_lookup_total_insert_eq by done. cbn. tauto. }
    rewrite list_lookup_total_insert_ne by done. split; [auto|].
    intros [[-> | ->] | H]; done. }
  assert (length (chopsticks s2) = length (chopsticks s)) as Hlen.
  { by rewrite Hcs, !length_insert. }
  assert (forall i c, holds s i c -> c <> l /\ c <> r) as Hfree.
  { intros i c Hh.
    assert (c < length (chopsticks s)) as Hc.
    { destruct Hh as [_ (q & Hq & Hadj)].
      destruct (Hw i q Hq) as (a & b & Ha & Hb & Hal & Hbl).
      rewrite Ha, Hb in Hadj. destruct Hadj as [[= ->] | [= ->]]; done. }
    assert (is_free (chopsticks s !!! c) = false) as Hc'.
    { apply Hf; eauto. }
    split; intros ->; congruence. }
  split; [|split].
  - eapply wired_same_seats; eauto.
  - intros c Hc. rewrite Hlen in Hc. rewrite (Hflag c Hc).
    setoid_rewrite Hholds. rewrite (Hf c Hc). split.
    + intros [Hc' | (i & Hi)]; [exists self; auto | exists i; auto].
    + intros (i & [[_ Hc'] | Hi]); [by left | right; eauto].
  - intros i j c. rewrite !Hholds.
    intros [[-> Hi] | Hi] [[-> Hj] | Hj]; [done | | | by eapply Hx].
    + apply Hfree in Hj. tauto.
    + apply Hfree in Hi. tauto.
Qed.

(** A finish: [self], the only actor that holds its two chopsticks,
    puts them down. *)
Lemma safe_release s s2 self p l r :
  safe s ->
  philosophers s !! self = Some p ->
  left_chopstick p = Some l -> right_chopstick p = Some r ->
  eating s self = true ->
  Forall2 same_seat (philosophers s) (philosophers s2) ->
  chopsticks s2 =
    <[r := {| is_free := true |}]> (<[l := {| is_free := true |}]> (chopsticks s)) ->
  (forall i, eating s2 i = true <-> i <> self /\ eating s i = true) ->
  safe s2.
Proof.
  intros (Hw & Hf & Hx) Hp Hl Hr Hself HF Hcs Heat.
  destruct (Hw self p Hp) as (l' & r' & Hl' & Hr' & Hll & Hrl).
  rewrite Hl in Hl'. rewrite Hr in Hr'.
  injection Hl' as <-. injection Hr' as <-.
  assert (forall c, holds s self c <-> c = l \/ c = r) as Hmine.
  { intros c. unfold holds. rewrite (adjacent_wired s self p l r) by done.
    tauto. }
  assert (forall i c, holds s2 i c <-> i <> self /\ holds s i c) as Hholds.
  { intros i c. unfold holds.
    rewrite Heat, (adjacent_same_seats s s2) by done. tauto. }
  assert (forall c, c < length (chopsticks s) ->
            is_free (chopsticks s2 !!! c) = false <->
            c <> l /\ c <> r /\ is_free (chopsticks s !!! c) = false) as Hflag.
  { intros c Hc. rewrite Hcs.
    destruct (decide (c = r)) as [->|Hcr].
    { rewrite list_lookup_total_insert_eq by (by rewrite length_insert).
      cbn. split; [done|tauto]. }
    rewrite list_lookup_total_insert_ne by done.
    destruct (decide (c = l)) as [->|Hcl].
    { rewrite list_lookup_total_insert_eq by done. cbn. split; [done|tauto]. }
    rewrite list_lookup_total_insert_ne by done. tauto. }
  assert (length (chopsticks s2) = length (chopsticks s)) as Hlen.
  { by rewrite Hcs, !length_insert. }
  split; [|split].
  - eapply wired_same_seats; eauto.
  - intros c Hc. rewrite Hlen in Hc. rewrite (Hflag c Hc).
    setoid_rewrite Hholds. rewrite (Hf c Hc). split.
    + intros (Hcl & Hcr & i & Hi). exists i. split; [|done].
      intros ->. apply Hmine in Hi. tauto.
    + intros (i & Hne & Hi).
      assert (~ holds s self c) as Hnot.
      { intros Hs. apply Hne. by apply (Hx i self c). }
      rewrite Hmine in Hnot. split; [tauto|]. split; [tauto|eauto].
  - intros i j c. rewrite !Hholds. intros [_ Hi] [_ Hj]. by eapply Hx.
Qed.

(** *** The handlers keep the table safe *)

Lemma request_step s self t p ev s1 s2 :
  safe s ->
  philosophers s !! self = Some p ->
  request expovariate self t s = Ok (ev, s1) ->
  events s2 ≡ₚ ev :: events s ->
  philosophers s2 = philosophers s1 ->
  chopsticks s2 = chopsticks s1 ->
  safe s2 /\ Forall2 same_seat (philosophers s) (philosophers s2).
Proof.
  intros Hsafe Hp Hreq Hev Hps Hcs.
  destruct Hsafe as (Hw & Hrest).
  destruct (Hw self p Hp) as (l & r & Hl & Hr & Hll & Hrl).
  rewrite (request_eq _ _ _ _ _ _ _ Hp Hl Hr) in Hreq.
  destruct (is_free (chopsticks s !!! l) && is_free (chopsticks s !!! r)) eqn:Hfree.
  - destruct (Qeq_bool (mi p) 0); [done|]. injection Hreq as <- <-.
    cbn in Hps, Hcs.
    assert (Forall2 same_seat (philosophers s) (philosophers s2)) as HF.
    { rewrite Hps. by apply same_seats_insert with p. }
    split; [|done].
    apply andb_true_iff in Hfree as [Hfl Hfr].
    apply (safe_take s s2 self p l r); try done.
    intros i. rewrite (eating_pushed s s2 _ i Hev). cbn. intuition.
  - destruct (Qeq_bool (lambda_i p) 0); [done|]. injection Hreq as <- <-.
    cbn in Hps, Hcs.
    assert (Forall2 same_seat (philosophers s) (philosophers s2)) as HF.
    { rewrite Hps. by apply same_seats_insert with p. }
    split; [|done].
    apply (safe_same s s2); try done.
    intros i. rewrite (eating_pushed s s2 _ i Hev). cbn. intuition congruence.
Qed.

Lemma remove_request_safe s0 x heap :
  safe s0 -> x :: heap ≡ₚ events s0 -> type x = REQUEST ->
  safe (set_events heap s0).
Proof.
  intros Hsafe Hperm Hty.
  apply (safe_same s0); [done | apply same_seats_refl | done |].
  intros i. symmetry in Hperm.
  rewrite (eating_pushed (set_events heap s0) s0 x i Hperm).
  intuition congruence.
Qed.

Lemma finish_step s0 x heap t p ev s1 s2 :
  safe s0 ->
  NoDup (philosopher <$> events s0) ->
  x :: heap ≡ₚ events s0 -> type x = FINISH ->
  philosophers s0 !! philosopher x = Some p ->
  finish expovariate (philosopher x) t (set_events heap s0) = Ok (ev, s1) ->
  events s2 ≡ₚ ev :: heap ->
  philosophers s2 = philosophers s1 ->
  chopsticks s2 = chopsticks s1 ->
  safe s2 /\ Forall2 same_seat (philosophers s0) (philosophers s2).
Proof.
  intros Hsafe Hnd Hperm Hty Hp Hfin Hev Hps Hcs.
  pose proof Hsafe as (Hw & _).
  destruct (Hw _ p Hp) as (l & r & Hl & Hr & Hll & Hrl).
  rewrite (finish_eq _ (set_events heap s0) _ _ p l r Hp Hl Hr) in Hfin.
  destruct (Qeq_bool (lambda_i p) 0); [done|]. injection Hfin as <- <-.
  cbn in Hps, Hcs.
  assert (Forall2 same_seat (philosophers s0) (philosophers s2)) as HF.
  { rewrite Hps. by apply same_seats_insert with p. }
  split; [|done].
  rewrite <- Hperm in Hnd. cbn in Hnd. apply NoDup_cons in Hnd as [Hnotin _].
  symmetry in Hperm.
  apply (safe_release s0 s2 (philosopher x) p l r); try done.
  - apply eating_true. exists x. rewrite Hperm. split; [left|done].
  - intros i.
    rewrite (eating_pushed (set_events heap s0) s2 _ i Hev).
    rewrite (eating_pushed (set_events heap s0) s0 x i Hperm).
    rewrite !eating_true. cbn. split.
    + intros [[_ [=]] | (e & Hin & <- & Hfe)]. split; [|right; eauto].
      intros Heq. apply Hnotin. rewrite <- Heq.
      by apply list_elem_of_fmap_2.
    + intros [Hne [[Heq _] | H]]; [done|by right].
Qed.

(** One turn keeps the invariant. *)
Lemma turn_seated k s event s' :
  seated k s -> iteration expovariate s = Ok (event, s') ->
  seated k s' /\ Forall2 same_seat (philosophers s) (philosophers s').
Proof.
  intros (Hsafe & Hpend & Hk)
         (heap & next & s1 & Hpop & Hh & -> & He & Hn)%iteration_Ok_inv.
  apply heapq_facts.heappop_Permutation in Hpop.
  assert (philosopher event ∈ seq 0 k) as Hin.
  { rewrite <- Hpend, <- Hpop. left. }
  apply elem_of_seq in Hin.
  destruct (lookup_lt_is_Some_2 (philosophers s) (philosopher event)) as [p Hp];
    [lia|].
  assert (safe (set_events (heapq.heappush Event_lt heap next) s1) /\
          Forall2 same_seat (philosophers s) (philosophers s1)) as [Hsafe' HF].
  { set (s2 := set_events (heapq.heappush Event_lt heap next) s1).
    change (philosophers s1) with (philosophers s2).
    assert (events s2 ≡ₚ next :: heap) as Hev2.
    { subst s2. cbn -[heapq.heappush]. apply heapq_facts.heappush_Permutation. }
    destruct (type event) eqn:Hty.
    - apply (request_step (set_events heap s) (philosopher event) (time event)
               p next s1 s2); try done.
      by eapply remove_request_safe.
    - apply (finish_step s event heap (time event) p next s1 s2); try done.
      unfold pending in Hpend. rewrite Hpend. apply NoDup_seq. }
  split; [|done]. split; [done|]. split.
  - unfold pending. cbn -[heapq.heappush].
    rewrite heapq_facts.heappush_Permutation. cbn. rewrite Hn.
    by rewrite <- Hpend, <- Hpop.
  - cbn. by rewrite <- (Forall2_length _ _ _ HF).
Qed.

Lemma turns_seated k s tr s' :
  seated k s -> turns expovariate s tr s' ->
  seated k s' /\ Forall2 same_seat (philosophers s) (philosophers s').
Proof.
  intros Hs Htr. induction Htr as [s|s ev s1 tr s2 Hit _ IH].
  - split; [done|]. apply same_seats_refl.
  - destruct (turn_seated _ _ _ _ Hs Hit) as [Hs1 HF1].
    destruct (IH Hs1) as [Hs2 HF2]. split; [done|].
    by eapply same_seats_trans.
Qed.

(** The seeding loop seats the actors one by one. *)
Lemma seed_seated m k t s s' :
  seated k s -> k + m <= length (philosophers s) ->
  seed expovariate (seq k m) t s = Ok s' ->
  seated (k + m) s' /\ Forall2 same_seat (philosophers s) (philosophers s').
Proof.
  revert k s. induction m as [|m IH]; intros k s Hs Hkm.
  - cbn. intros [= <-]. rewrite Nat.add_0_r. split; [done|].
    apply same_seats_refl.
  - cbn [seq seed].
    destruct (request expovariate k t s) as [[ev s1]|] eqn:Hreq; [|done].
    cbn -[heapq.heappush]. intros Hseed.
    destruct Hs as (Hsafe & Hpend & Hk).
    destruct (lookup_lt_is_Some_2 (philosophers s) k) as [p Hp]; [lia|].
    pose proof (request_frame _ _ _ _ _ _ Hreq) as (_ & Hev & Hself & Hlen & _).
    destruct (request_step s k t p ev s1
                (set_events (heapq.heappush Event_lt (events s1) ev) s1))
      as [Hsafe1 HF1]; try done.
    { cbn -[heapq.heappush]. by rewrite heapq_facts.heappush_Permutation, Hev. }
    apply IH in Hseed as [Hs' HF'].
    + replace (k + S m) with (S k + m) by lia. split; [done|].
      by eapply same_seats_trans.
    + split; [done|]. split.
      * unfold pending, set_events. cbn [events].
        rewrite heapq_facts.heappush_Permutation, fmap_cons.
        rewrite Hself, Hev, Hpend.
        rewrite seq_S. by rewrite Permutation_app_comm.
      * cbn. lia.
    + cbn. lia.
Qed.

(** The table that [Simulation.__init__] builds. *)
Lemma init_seated mi T lambdas (g : rng) :
  seated 0 (Simulation_init mi T lambdas g).
Proof.
  assert (forall i c, ~ holds (Simulation_init mi T lambdas g) i c) as Hnone.
  { intros i c [He _]. by cbn in He. }
  split; [split; [|split]|split].
  - intros i p Hp. rewrite Simulation_init_philosophers in Hp.
    destruct (lambdas !! i) as [x|] eqn:Hx; [|done].
    injection Hp as <-. apply lookup_lt_Some in Hx.
    destruct (Simulation_init_lengths mi T lambdas g) as [_ ->].
    exists i, ((i + 1) mod length lambdas). repeat split; [done|].
    apply Nat.mod_upper_bound. lia.
  - intros c Hc.
    destruct (Simulation_init_lengths mi T lambdas g) as [_ Hlen].
    rewrite Hlen in Hc.
    rewrite (lookup_total_of_lookup _ _ _ (Simulation_init_chopsticks mi T lambdas g c Hc)).
    cbn. split; [done|]. intros [i Hi]. by apply Hnone in Hi.
  - intros i j c Hi. by apply Hnone in Hi.
  - unfold pending. by cbn.
  - lia.
Qed.

(** Every state at the head of the loop satisfies the invariant, and
    the seats and rates are those of the start. *)
Lemma reachable_seated mi T lambdas (g : rng) s :
  reachable expovariate (Simulation_init mi T lambdas g) s ->
  seated (length lambdas) s /\
  Forall2 same_seat (philosophers (Simulation_init mi T lambdas g)) (philosophers s).
Proof.
  intros (s1 & tr & Hseed & Htr). unfold seeded in Hseed.
  destruct (Simulation_init_lengths mi T lambdas g) as [Hlen _].
  apply seed_seated in Hseed as [Hs1 HF1]; [|apply init_seated|lia].
  rewrite Hlen in Hs1. cbn in Hs1.
  destruct (turns_seated _ _ _ _ Hs1 Htr) as [Hs HF]. split; [done|].
  by eapply same_seats_trans.
Qed.

(** C3. In every state at the head of the loop, no chopstick is held by
    two actors, a chopstick is marked taken exactly when an actor holds
    it, and an actor holds both of its chopsticks (EATING; both are
    marked taken) or none (WAITING), never exactly one. *)
Theorem mutual_exclusion mi T lambdas (g : rng) s :
  reachable expovariate (Simulation_init mi T lambdas g) s ->
  exclusive s /\ flags_agree s /\
  forall i p, philosophers s !! i = Some p ->
    exists l r,
      left_chopstick p = Some l /\ right_chopstick p = Some r /\
      l = i /\ r = (i + 1) mod length lambdas /\
      if eating s i
      then holds s i l /\ holds s i r /\
           is_free (chopsticks s !!! l) = false /\
           is_free (chopsticks s !!! r) = false
      else forall c, ~ holds s i c.
Proof.
  intros Hreach.
  destruct (reachable_seated _ _ _ _ _ Hreach) as [((Hw & Hf & Hx) & _ & _) HF].
  split; [done|]. split; [done|].
  intros i p Hp.
  destruct (Hw i p Hp) as (l & r & Hl & Hr & Hll & Hrl).
  exists l, r. split; [done|]. split; [done|].
  destruct (Forall2_lookup_r _ _ _ _ _ HF Hp) as (p0 & Hp0 & Hl0 & Hr0 & _).
  rewrite Simulation_init_philosophers in Hp0.
  destruct (lambdas !! i) as [x|]; [|done]. injection Hp0 as <-.
  cbn in Hl0, Hr0. rewrite Hl in Hl0. rewrite Hr in Hr0.
  injection Hl0 as <-. injection Hr0 as <-.
  split; [done|]. split; [done|].
  destruct (eating s i) eqn:He.
  - assert (holds s i i /\ holds s i ((i + 1) mod length lambdas)) as [H1 H2].
    { unfold holds. rewrite He, !(adjacent_wired s i p _ _ _ Hp Hl Hr). auto. }
    split; [done|]. split; [done|]. split; apply Hf; eauto.
  - intros c [He' _]. congruence.
Qed.

(** *** The population of the event queue *)

Lemma heappop_cons (heap : list Event) :
  heap <> [] -> exists event heap', heapq.heappop Event_lt heap = Ok (event, heap').
Proof.
  intros Hne. destruct (heapq.heappop Event_lt heap) as [[event heap']|e] eqn:E.
  - eauto.
  - by apply heapq_facts.heappop_Raise in E as [-> _].
Qed.

Lemma seated_events_length k s : seated k s -> length (events s) = k.
Proof.
  intros (_ & Hpend & _). unfold pending in Hpend.
  apply Permutation_length in Hpend.
  by rewrite length_fmap, length_seq in Hpend.
Qed.

(** With rates above zero a turn always goes through. *)
Lemma iteration_progress k s :
  seated k s -> 0 < k -> positive_rates s ->
  exists event s', iteration expovariate s = Ok (event, s').
Proof.
  intros Hs Hk Hpos.
  pose proof (seated_events_length _ _ Hs) as Hlen.
  destruct Hs as ((Hw & _) & Hpend & Hkn).
  destruct (heappop_cons (events s)) as (x & heap & Hpop).
  { intros Hnil. rewrite Hnil in Hlen. cbn in Hlen. lia. }
  assert (philosopher x ∈ seq 0 k) as Hin.
  { rewrite <- Hpend, <- (heapq_facts.heappop_Permutation _ _ _ _ Hpop). left. }
  apply elem_of_seq in Hin.
  destruct (lookup_lt_is_Some_2 (philosophers s) (philosopher x)) as [p Hp];
    [lia|].
  destruct (Hw _ p Hp) as (l & r & Hl & Hr & _).
  destruct (Hpos p) as [Hmi Hla]; [by eapply list_elem_of_lookup_2|].
  unfold iteration. rewrite Hpop. cbn -[heapq.heappush].
  destruct (type x).
  - rewrite (request_eq _ (set_events heap s) _ _ p l r Hp Hl Hr).
    rewrite (Qeq_bool_false_of_pos _ Hmi), (Qeq_bool_false_of_pos _ Hla).
    destruct (_ && _); cbn -[heapq.heappush]; eauto.
  - rewrite (finish_eq _ (set_events heap s) _ _ p l r Hp Hl Hr).
    rewrite (Qeq_bool_false_of_pos _ Hla). cbn -[heapq.heappush]. eauto.
Qed.

Lemma init_positive_rates mi T lambdas (g : rng) :
  (0 < mi)%Q -> Forall (fun x => (0 < x)%Q) lambdas ->
  positive_rates (Simulation_init mi T lambdas g).
Proof.
  intros Hmi Hla p Hin. apply list_elem_of_lookup in Hin as [i Hp].
  rewrite Simulation_init_philosophers in Hp.
  destruct (lambdas !! i) as [x|] eqn:Hx; [|done]. injection Hp as <-.
  cbn. split; [done|].
  rewrite Forall_forall in Hla. apply Hla. by eapply list_elem_of_lookup_2.
Qed.

(** *** Popping from the queue *)

Lemma seed_Raise refs t s e :
  seed expovariate refs t s = Raise e ->
  e = AttributeError \/ e = ZeroDivisionError.
Proof.
  revert s. induction refs as [|i refs IH]; intros s; [done|].
  cbn -[heapq.heappush].
  destruct (request expovariate i t s) as [[ev s1]|e'] eqn:Hreq;
    cbn -[heapq.heappush].
  - apply IH.
  - intros [= <-]. eauto using request_Raise.
Qed.

Lemma loop_Raise_inv fuel clock s e :
  loop expovariate fuel clock s = Some (Raise e) ->
  exists tr s', turns expovariate s tr s' /\ iteration expovariate s' = Raise e.
Proof.
  revert clock s. induction fuel as [|fuel IH]; intros clock s;
    rewrite loop_eq; destruct (Qltb clock (T s)); try done.
  destruct (iteration expovariate s) as [[event s1]|e'] eqn:Hit.
  - intros (tr & s' & Htr & Hr)%IH. exists ((event, s1) :: tr), s'.
    split; [by econstructor|done].
  - intros [= <-]. exists [], s. split; [constructor|done].
Qed.

(** C10. Over at least one actor the queue is non-empty at the head of
    every turn, so no run ends in the [IndexError] of a pop from an
    empty queue; over no actor and with a horizon above zero the first
    turn pops from the empty queue and the run ends in [IndexError]. *)
Theorem pop_never_fails mi T lambdas (g : rng) :
  (lambdas <> [] ->
   (forall s, reachable expovariate (Simulation_init mi T lambdas g) s ->
              events s <> [] /\ iteration expovariate s <> Raise IndexError) /\
   (forall fuel,
      run expovariate fuel (Simulation_init mi T lambdas g)
        <> Some (Raise IndexError))) /\
  (lambdas = [] -> (0 < T)%Q ->
   forall fuel,
     run expovariate (S fuel) (Simulation_init mi T lambdas g)
       = Some (Raise IndexError)).
Proof.
  split.
  - intros Hne.
    assert (forall s, reachable expovariate (Simulation_init mi T lambdas g) s ->
              events s <> [] /\ iteration expovariate s <> Raise IndexError)
      as Hpop.
    { intros s Hreach.
      destruct (reachable_seated _ _ _ _ _ Hreach) as [Hs _].
      apply seated_events_length in Hs.
      assert (events s <> []) as Hev.
      { intros Hnil. rewrite Hnil in Hs. destruct lambdas; [done|]. cbn in Hs. lia. }
      split; [done|]. intros Hr.
      apply iteration_Raise in Hr as [[_ Hnil] | [_ [? | ?]]]; done. }
    split; [done|]. intros fuel. unfold run.
    destruct (seed _ _ _ _) as [s1|e] eqn:Hseed.
    + intros Hloop. apply loop_Raise_inv in Hloop as (tr & s' & Htr & Hr).
      apply (Hpop s'); [|done]. by exists s1, tr.
    + intros [= ->]. apply seed_Raise in Hseed as [? | ?]; done.
  - intros -> HT fuel. unfold run. cbn.
    apply Qltb_true in HT. by rewrite HT.
Qed.
End Table.

(** A table of three with a scripted source: the seeded state, and the
    state one turn later. *)
Lemma mutual_exclusion_witness :
  exists s,
    reachable scripted
      (Simulation_init 1 1 [1; 1; 1]%Q
         ([(5%N, 1%positive); (1%N, 2%positive); (3%N, 1%positive)] : script)) s /\
    exclusive s /\ eating s 0 = true.
Proof.
  eexists. split.
  - eexists _, []. split; [vm_compute; reflexivity|constructor].
  - split; [|reflexivity].
    eapply (mutual_exclusion scripted 1 1 [1; 1; 1]%Q
              ([(5%N, 1%positive); (1%N, 2%positive); (3%N, 1%positive)] : script)).
    eexists _, []. split; [vm_compute; reflexivity|constructor].
Defined.

Lemma pop_never_fails_witness :
  run scripted 5 (Simulation_init 1 1 [1; 1; 1]%Q ([] : script))
    <> Some (Raise IndexError) /\
  run scripted 1 (Simulation_init 1 1 [] ([] : script)) = Some (Raise IndexError).
Proof.
  split.
  - apply (pop_never_fails scripted 1 1 [1; 1; 1]%Q ([] : script)). discriminate.
  - apply (pop_never_fails scripted 1 1 [] ([] : script)); reflexivity.
Defined.

(** ** The handlers, case by case *)

Section Cases.
Context {rng : Type} (expovariate : Q -> rng -> Q * rng).
Implicit Types s : Simulation (rng := rng).

(** A request that returns took one of its two branches. *)
Lemma request_cases s self t p l r ev s1 :
  philosophers s !! self = Some p ->
  left_chopstick p = Some l -> right_chopstick p = Some r ->
  request expovariate self t s = Ok (ev, s1) ->
  (is_free (chopsticks s !!! l) && is_free (chopsticks s !!! r) = true /\
   Qeq_bool (mi p) 0 = false /\
   ev = {| philosopher := self;
           time := t + (expovariate (mi p) (gen s)).1; type := FINISH |} /\
   philosophers s1 =
     <[self := set_started_at t (set_requests (requests p ++ [t]) p)]>
       (philosophers s) /\
   chopsticks s1 =
     <[r := {| is_free := false |}]>
       (<[l := {| is_free := false |}]> (chopsticks s))) \/
  (is_free (chopsticks s !!! l) && is_free (chopsticks s !!! r) = false /\
   Qeq_bool (lambda_i p) 0 = false /\
   ev = {| philosopher := self;
           time := t + (expovariate (lambda_i p) (gen s)).1; type := REQUEST |} /\
   philosophers s1 =
     <[self := set_failed_attempts (failed_attempts p + 1)
                 (set_requests (requests p ++ [t]) p)]>
       (philosophers s) /\
   chopsticks s1 = chopsticks s).
Proof.
  intros Hp Hl Hr. rewrite (request_eq _ _ _ _ _ _ _ Hp Hl Hr).
  destruct (_ && _).
  - destruct (Qeq_bool (mi p) 0); [done|]. intros [= <- <-]. by left.
  - destruct (Qeq_bool (lambda_i p) 0); [done|]. intros [= <- <-]. by right.
Qed.

Lemma finish_cases s self t p l r ev s1 :
  philosophers s !! self = Some p ->
  left_chopstick p = Some l -> right_chopstick p = Some r ->
  finish expovariate self t s = Ok (ev, s1) ->
  Qeq_bool (lambda_i p) 0 = false /\
  ev = {| philosopher := self;
          time := t + (expovariate (lambda_i p) (gen s)).1; type := REQUEST |} /\
  philosophers s1 =
    <[self := set_eating_time (eating_time p + (t - started_at p)) p]>
      (philosophers s) /\
  chopsticks s1 =
    <[r := {| is_free := true |}]>
      (<[l := {| is_free := true |}]> (chopsticks s)).
Proof.
  intros Hp Hl Hr. rewrite (finish_eq _ _ _ _ _ _ _ Hp Hl Hr).
  destruct (Qeq_bool (lambda_i p) 0); [done|]. by intros [= <- <-].
Qed.

(** A handler that raises on a wired actor divides by a zero rate. *)
Lemma request_Raise_wired s self t p l r e :
  philosophers s !! self = Some p ->
  left_chopstick p = Some l -> right_chopstick p = Some r ->
  request expovariate self t s = Raise e ->
  e = ZeroDivisionError /\
  (Qeq_bool (mi p) 0 = true \/ Qeq_bool (lambda_i p) 0 = true).
Proof.
  intros Hp Hl Hr. rewrite (request_eq _ _ _ _ _ _ _ Hp Hl Hr).
  destruct (_ && _).
  - destruct (Qeq_bool (mi p) 0); [|done]. intros [= <-]. auto.
  - destruct (Qeq_bool (lambda_i p) 0); [|done]. intros [= <-]. auto.
Qed.

Lemma finish_Raise_wired s self t p l r e :
  philosophers s !! self = Some p ->
  left_chopstick p = Some l -> right_chopstick p = Some r ->
  finish expovariate self t s = Raise e ->
  e = ZeroDivisionError /\ Qeq_bool (lambda_i p) 0 = true.
Proof.
  intros Hp Hl Hr. rewrite (finish_eq _ _ _ _ _ _ _ Hp Hl Hr).
  destruct (Qeq_bool (lambda_i p) 0); [|done]. intros [= <-]. auto.
Qed.

(** A turn that returns: the event it pops, the actor it wakes, and who
    is eating before and after. *)
Lemma turn_cases k s event s' :
  seated k s -> iteration expovariate s = Ok (event, s') ->
  exists p l r heap next s1,
    philosopher event < k /\
    philosophers s !! philosopher event = Some p /\
    left_chopstick p = Some l /\ right_chopstick p = Some r /\
    event :: heap ≡ₚ events s /\
    s' = set_events (heapq.heappush Event_lt heap next) s1 /\
    (forall j, j <> philosopher event -> eating s' j = eating s j) /\
    (eating s' (philosopher event) = true <-> type next = FINISH) /\
    (eating s (philosopher event) = true <-> type event = FINISH) /\
    match type event with
    | REQUEST =>
        request expovariate (philosopher event) (time event) (set_events heap s)
    | FINISH =>
        finish expovariate (philosopher event) (time event) (set_events heap s)
    end = Ok (next, s1).
Proof.
  intros ((Hw & _) & Hpend & Hk)
         (heap & next & s1 & Hpop & Hh & -> & He & Hn)%iteration_Ok_inv.
  pose proof (heapq_facts.heappop_Permutation _ _ _ _ Hpop) as Hperm.
  assert (philosopher event ∈ seq 0 k) as Hin.
  { rewrite <- Hpend, <- Hperm. left. }
  apply elem_of_seq in Hin.
  destruct (lookup_lt_is_Some_2 (philosophers s) (philosopher event)) as [p Hp];
    [lia|].
  destruct (Hw _ p Hp) as (l & r & Hl & Hr & _).
  assert (NoDup (philosopher <$> events s)) as Hnd.
  { unfold pending in Hpend. rewrite Hpend. apply NoDup_seq. }
  rewrite <- Hperm in Hnd. cbn in Hnd. apply NoDup_cons in Hnd as [Hnotin _].
  assert (eating (set_events heap s) (philosopher event) = false) as Hmine.
  { destruct (eating (set_events heap s) (philosopher event)) eqn:E; [|done].
    apply eating_true in E as (e' & Hin' & Heq & _). cbn in Hin'.
    exfalso. apply Hnotin. rewrite <- Heq. by apply list_elem_of_fmap_2. }
  set (s2 := set_events (heapq.heappush Event_lt heap next) s1).
  assert (events s2 ≡ₚ next :: events (set_events heap s)) as Hev2.
  { subst s2. cbn -[heapq.heappush]. apply heapq_facts.heappush_Permutation. }
  assert (events s ≡ₚ event :: events (set_events heap s)) as Hev0.
  { by symmetry. }
  exists p, l, r, heap, next, s1.
  split; [lia|]. split; [done|]. split; [done|]. split; [done|].
  split; [done|]. split; [done|]. split; [|split; [|split; [|done]]].
  - intros j Hj. apply eq_true_iff_eq.
    rewrite (eating_pushed _ _ _ j Hev2), (eating_pushed _ _ _ j Hev0).
    rewrite Hn. intuition congruence.
  - rewrite (eating_pushed _ _ _ _ Hev2), Hmine, Hn. intuition congruence.
  - rewrite (eating_pushed _ _ _ _ Hev0), Hmine. intuition congruence.
Qed.
End Cases.

(** ** The loop, turn by turn: the last turn and the queue *)

Section Dispatching.
Context {rng : Type} (expovariate : Q -> rng -> Q * rng).
Implicit Types s : Simulation (rng := rng).
Implicit Types tr : list (Event * Simulation (rng := rng)).

(** A turn is a pop, the handler of the popped event, and the push of
    the event that the handler returns. *)
Lemma iteration_Ok_intro s event heap next s1 :
  heapq.heappop Event_lt (events s) = Ok (event, heap) ->
  match type event with
  | REQUEST =>
      request expovariate (philosopher event) (time event) (set_events heap s)
  | FINISH =>
      finish expovariate (philosopher event) (time event) (set_events heap s)
  end = Ok (next, s1) ->
  iteration expovariate s =
    Ok (event, set_events (heapq.heappush Event_lt heap next) s1).
Proof.
  intros Hpop Hh.
  assert (events s1 = heap) as He.
  { destruct (type event).
    - by apply request_frame in Hh as (_ & -> & _).
    - by apply finish_frame in Hh as (_ & -> & _). }
  unfold iteration. rewrite Hpop. cbn -[heapq.heappush].
  destruct (type event); rewrite Hh; cbn -[heapq.heappush]; by rewrite He.
Qed.

(** The loop returns at once, or after some turns entered below the
    horizon and a last turn whose event is at or beyond it. *)
Lemma loop_last fuel clock s fin :
  loop expovariate fuel clock s = Some (Ok fin) <->
  ((T s <= clock)%Q /\ fin = set_events [] s) \/
  exists tr s0 event heap next s1,
    length tr < fuel /\
    turns expovariate s tr s0 /\
    Forall (fun t => (t < T s)%Q) (clock :: times tr) /\
    heapq.heappop Event_lt (events s0) = Ok (event, heap) /\
    (T s <= time event)%Q /\
    match type event with
    | REQUEST =>
        request expovariate (philosopher event) (time event) (set_events heap s0)
    | FINISH =>
        finish expovariate (philosopher event) (time event) (set_events heap s0)
    end = Ok (next, s1) /\
    fin = set_events [] s1.
Proof.
  split.
  - revert clock s. induction fuel as [|fuel IH]; intros clock s;
      rewrite loop_eq; destruct (Qltb clock (T s)) eqn:Hlt; try done.
    + intros [= <-]. left. by apply Qltb_false in Hlt.
    + destruct (iteration expovariate s) as [[event s2]|] eqn:Hit; [|done].
      apply Qltb_true in Hlt.
      pose proof (iteration_frame _ _ _ _ Hit) as [HT _].
      intros [[Hge ->] |
              (tr & s0 & ev & heap & next & s1 & Hlen & Htr & HF & Hpop &
               Hge & Hh & ->)]%IH; right.
      * apply iteration_Ok_inv in Hit as (heap & next & s1 & Hpop & Hh & -> & _).
        exists [], s, event, heap, next, s1.
        split; [cbn; lia|]. split; [constructor|].
        split; [by repeat constructor|]. split; [done|].
        split; [by rewrite <- HT|]. by split.
      * exists ((event, s2) :: tr), s0, ev, heap, next, s1.
        split; [cbn; lia|]. split; [by econstructor|].
        rewrite HT in HF, Hge. split; [by constructor|]. by repeat split.
    + intros [= <-]. left. by apply Qltb_false in Hlt.
  - intros [[HT ->] |
            (tr & s0 & event & heap & next & s1 & Hlen & Htr & HF & Hpop &
             Hge & Hh & ->)].
    + rewrite loop_eq. apply Qltb_false in HT. by rewrite HT.
    + revert fuel clock Hlen HF Hge.
      induction Htr as [s|s e sa tr sb Hit Htr IH];
        intros fuel clock Hlen HF Hge; rewrite loop_eq;
        apply Forall_cons in HF as [Hlt HF]; apply Qltb_true in Hlt;
        rewrite Hlt; (destruct fuel as [|fuel]; [cbn in Hlen; lia|]).
      * pose proof (iteration_Ok_intro _ _ _ _ _ Hpop Hh) as Hit.
        pose proof (iteration_frame _ _ _ _ Hit) as [HT _].
        rewrite Hit, loop_eq. rewrite <- HT in Hge.
        apply Qltb_false in Hge. by rewrite Hge.
      * pose proof (iteration_frame _ _ _ _ Hit) as [HT _].
        rewrite Hit. apply IH; [done|done|cbn in Hlen; lia| |];
          by rewrite HT.
Qed.

(** C4. The loop leaves exactly when the clock (the time of the last
    processed event, [clock] before the first turn) is at or beyond the
    horizon.  It answers [fin] if and only if either the clock is at or
    beyond [T] at its head and no turn is run, or some turns are run,
    each entered with a clock below [T], and then a last one that pops
    an event at or beyond [T]: that event is processed in full, [fin]
    being the state that its handler leaves, with the queue emptied
    (the follow-up event and every other queued event are dropped and
    not processed).  What the handler of the last event leaves, on a
    wired actor: a request is logged and takes both chopsticks (setting
    [started_at]) or counts a failed attempt; a finish frees both
    chopsticks and adds the time since [started_at] to [eating_time]. *)
Theorem loop_stops fuel clock s fin :
  loop expovariate fuel clock s = Some (Ok fin) <->
  ((T s <= clock)%Q /\ fin = set_events [] s) \/
  exists tr s0 event heap next s1,
    length tr < fuel /\
    turns expovariate s tr s0 /\
    Forall (fun t => (t < T s)%Q) (clock :: times tr) /\
    heapq.heappop Event_lt (events s0) = Ok (event, heap) /\
    (T s <= time event)%Q /\
    match type event with
    | REQUEST =>
        request expovariate (philosopher event) (time event) (set_events heap s0)
    | FINISH =>
        finish expovariate (philosopher event) (time event) (set_events heap s0)
    end = Ok (next, s1) /\
    fin = set_events [] s1 /\
    events fin = [] /\
    forall p l r,
      philosophers s0 !! philosopher event = Some p ->
      left_chopstick p = Some l -> right_chopstick p = Some r ->
      match type event with
      | REQUEST =>
          if is_free (chopsticks s0 !!! l) && is_free (chopsticks s0 !!! r)
          then
            type next = FINISH /\
            philosophers fin =
              <[philosopher event :=
                  set_started_at (time event)
                    (set_requests (requests p ++ [time event]) p)]>
                (philosophers s0) /\
            chopsticks fin =
              <[r := {| is_free := false |}]>
                (<[l := {| is_free := false |}]> (chopsticks s0))
          else
            type next = REQUEST /\
            philosophers fin =
              <[philosopher event :=
                  set_failed_attempts (failed_attempts p + 1)
                    (set_requests (requests p ++ [time event]) p)]>
                (philosophers s0) /\
            chopsticks fin = chopsticks s0
      | FINISH =>
          type next = REQUEST /\
          philosophers fin =
            <[philosopher event :=
                set_eating_time
                  (eating_time p + (time event - started_at p)) p]>
              (philosophers s0) /\
          chopsticks fin =
            <[r := {| is_free := true |}]>
              (<[l := {| is_free := true |}]> (chopsticks s0))
      end.
Proof.
  rewrite loop_last. split.
  - intros [H | (tr & s0 & event & heap & next & s1 & Hlen & Htr & HF & Hpop &
                 Hge & Hh & ->)]; [by left|right].
    exists tr, s0, event, heap, next, s1.
    split; [done|]. split; [done|]. split; [done|]. split; [done|].
    split; [done|]. split; [done|]. split; [done|]. split; [done|].
    intros p l r Hp Hl Hr. cbn [philosophers chopsticks set_events].
    destruct (type event).
    + apply (request_cases expovariate (set_events heap s0) _ _ p l r) in Hh;
        [|done..].
      cbn [philosophers chopsticks set_events] in Hh.
      destruct Hh as [(-> & _ & -> & Hps & Hcs) | (-> & _ & -> & Hps & Hcs)];
        by repeat split.
    + apply (finish_cases expovariate (set_events heap s0) _ _ p l r) in Hh;
        [|done..].
      cbn [philosophers chopsticks set_events] in Hh.
      destruct Hh as (_ & -> & Hps & Hcs). by repeat split.
  - intros [H | (tr & s0 & event & heap & next & s1 & Hlen & Htr & HF & Hpop &
                 Hge & Hh & -> & _)]; [by left|right].
    exists tr, s0, event, heap, next, s1. by repeat split.
Qed.

(** C5. At the head of every turn of the loop the event queue holds
    exactly one event per actor, N in all.  A turn pops one event and
    calls its handler, [request] or [finish]; the handler leaves the
    queue alone and returns one event, for the same actor (a REQUEST
    after a finish), and this event is what the turn pushes: the queue
    is the popped one plus that event, N events again.  With rates above
    zero the handler does return. *)
Theorem queue_population mu horizon lambdas (g : rng) s :
  reachable expovariate (Simulation_init mu horizon lambdas g) s ->
  length (events s) = length lambdas /\
  philosopher <$> events s ≡ₚ seq 0 (length lambdas) /\
  (forall event s',
      iteration expovariate s = Ok (event, s') ->
      exists heap next s1,
        heapq.heappop Event_lt (events s) = Ok (event, heap) /\
        length heap + 1 = length lambdas /\
        match type event with
        | REQUEST =>
            request expovariate (philosopher event) (time event)
              (set_events heap s)
        | FINISH =>
            finish expovariate (philosopher event) (time event)
              (set_events heap s)
        end = Ok (next, s1) /\
        events s1 = heap /\
        s' = set_events (heapq.heappush Event_lt heap next) s1 /\
        events s' = heapq.heappush Event_lt heap next /\
        events s' ≡ₚ next :: heap /\
        philosopher next = philosopher event /\
        (type event = FINISH -> type next = REQUEST) /\
        length (events s') = length lambdas) /\
  ((0 < mu)%Q -> Forall (fun x => (0 < x)%Q) lambdas -> lambdas <> [] ->
   exists event s', iteration expovariate s = Ok (event, s')).
Proof.
  intros Hreach.
  destruct (reachable_seated _ _ _ _ _ _ Hreach) as [Hs HF].
  pose proof (seated_events_length _ _ Hs) as Hlen.
  split; [done|]. split; [by destruct Hs as (_ & ? & _)|]. split.
  - intros event s' Hit.
    destruct (turn_seated _ _ _ _ _ Hs Hit) as [Hs' _].
    apply seated_events_length in Hs'.
    apply iteration_Ok_inv in Hit as (heap & next & s1 & Hpop & Hh & -> & He & Hn).
    pose proof (heapq_facts.heappop_Permutation _ _ _ _ Hpop) as Hperm.
    exists heap, next, s1.
    split; [done|]. split.
    { apply Permutation_length in Hperm. cbn in Hperm. lia. }
    split; [done|]. split; [done|]. split; [done|]. split; [done|].
    split; [apply heapq_facts.heappush_Permutation|]. split; [done|].
    split; [|done].
    intros Hty. rewrite Hty in Hh.
    by apply finish_frame in Hh as (_ & _ & _ & ? & _).
  - intros Hmu Hla Hne. eapply iteration_progress; [exact Hs| |].
    + destruct lambdas; [done|cbn; lia].
    + eapply positive_rates_same_seats; [exact HF|].
      by apply init_positive_rates.
Qed.
End Dispatching.

(** A table of three, a horizon of one and the draws 5, 7 and 8: actor 0
    eats from time zero, and the single turn of the loop pops its FINISH
    event at time 5, beyond the horizon; the five units are counted in
    its [eating_time] and both its chopsticks are free in the end. *)
Lemma loop_stops_witness :
  exists s1 fin,
    seeded scripted
      (Simulation_init 1 1 [1; 1; 1]%Q
         ([(5%N, 1%positive); (7%N, 1%positive); (8%N, 1%positive)] : script))
      s1 /\
    loop scripted 1 0 s1 = Some (Ok fin) /\
    eating_time <$> philosophers fin = [5; 0; 0]%Q /\
    is_free <$> chopsticks fin = [true; true; true] /\
    (((T s1 <= 0)%Q /\ fin = set_events [] s1) \/
     exists tr s0 event heap next sh,
       length tr < 1 /\ turns scripted s1 tr s0 /\
       heapq.heappop Event_lt (events s0) = Ok (event, heap) /\
       (T s1 <= time event)%Q /\
       match type event with
       | REQUEST =>
           request scripted (philosopher event) (time event) (set_events heap s0)
       | FINISH =>
           finish scripted (philosopher event) (time event) (set_events heap s0)
       end = Ok (next, sh) /\
       fin = set_events [] sh).
Proof.
  eexists _, _. split; [vm_compute; reflexivity|].
  split; [vm_compute; reflexivity|].
  split; [vm_compute; reflexivity|]. split; [vm_compute; reflexivity|].
  match goal with
  | |- (_ /\ ?fin = set_events [] ?s1) \/ _ =>
      destruct (proj1 (loop_stops scripted 1 0 s1 fin))
        as [H | (tr & s0 & event & heap & next & sh & Hlen & Htr & _ & Hpop &
                 Hge & Hh & Hfin & _)]
  end.
  - vm_compute. reflexivity.
  - by left.
  - right. exists tr, s0, event, heap, next, sh. by repeat split.
Defined.

Lemma queue_population_witness :
  exists s event s',
    reachable scripted
      (Simulation_init 1 1 [1; 1; 1]%Q
         ([(5%N, 1%positive); (1%N, 2%positive); (3%N, 1%positive)] : script)) s /\
    iteration scripted s = Ok (event, s') /\
    length (events s) = 3 /\ length (events s') = 3.
Proof.
  assert (exists s event s',
            seeded scripted
              (Simulation_init 1 1 [1; 1; 1]%Q
                 ([(5%N, 1%positive); (1%N, 2%positive); (3%N, 1%positive)]
                  : script)) s /\
            iteration scripted s = Ok (event, s'))
    as (s & event & s' & Hseed & Hit).
  { eexists _, _, _. split; vm_compute; reflexivity. }
  assert (reachable scripted
            (Simulation_init 1 1 [1; 1; 1]%Q
               ([(5%N, 1%positive); (1%N, 2%positive); (3%N, 1%positive)]
                : script)) s) as Hreach.
  { exists s, []. split; [exact Hseed|constructor]. }
  destruct (queue_population scripted 1 1 [1; 1; 1]%Q
              ([(5%N, 1%positive); (1%N, 2%positive); (3%N, 1%positive)] : script)
              s Hreach) as (Hlen & _ & Hturn & _).
  destruct (Hturn event s' Hit) as (heap & next & sh & _ & _ & _ & _ & _ & _ & _ &
                                    _ & _ & Hlen').
  exists s, event, s'. by repeat split.
Defined.

(** ** Time: the order of the processed events *)

Section Clock.
Context {rng : Type} (expovariate : Q -> rng -> Q * rng).
Hypothesis expovariate_nonneg :
  forall rate g, (0 < rate)%Q -> (0 <= (expovariate rate g).1)%Q.
Implicit Types s : Simulation (rng := rng).
Implicit Types tr : list (Event * Simulation (rng := rng)).

(** What one turn does to the actor it is dispatched to, to the queue
    and to who is eating. *)
Lemma turn_effect k s event s' :
  seated k s -> positive_rates s ->
  iteration expovariate s = Ok (event, s') ->
  exists p p' heap next,
    philosophers s !! philosopher event = Some p /\
    philosophers s' = <[philosopher event := p']> (philosophers s) /\
    heapq.heappop Event_lt (events s) = Ok (event, heap) /\
    events s' = heapq.heappush Event_lt heap next /\
    philosopher next = philosopher event /\
    (time event <= time next)%Q /\
    (forall j, j <> philosopher event -> eating s' j = eating s j) /\
    (eating s' (philosopher event) = true <-> type next = FINISH) /\
    match type event with
    | REQUEST =>
        eating s (philosopher event) = false /\
        requests p' = requests p ++ [time event] /\
        eating_time p' = eating_time p /\
        ((type next = FINISH /\ started_at p' = time event) \/
         (type next = REQUEST /\ started_at p' = started_at p))
    | FINISH =>
        eating s (philosopher event) = true /\
        requests p' = requests p /\
        eating_time p' = (eating_time p + (time event - started_at p))%Q /\
        started_at p' = started_at p /\
        type next = REQUEST
    end.
Proof.
  intros ((Hw & _) & Hpend & Hk) Hpos
         (heap & next & s1 & Hpop & Hh & -> & He & Hn)%iteration_Ok_inv.
  pose proof (heapq_facts.heappop_Permutation _ _ _ _ Hpop) as Hperm.
  assert (philosopher event ∈ seq 0 k) as Hin.
  { rewrite <- Hpend, <- Hperm. left. }
  apply elem_of_seq in Hin.
  destruct (lookup_lt_is_Some_2 (philosophers s) (philosopher event)) as [p Hp];
    [lia|].
  destruct (Hw _ p Hp) as (l & r & Hl & Hr & _).
  destruct (Hpos p) as [Hmi Hla]; [by eapply list_elem_of_lookup_2|].
  assert (NoDup (philosopher <$> events s)) as Hnd.
  { unfold pending in Hpend. rewrite Hpend. apply NoDup_seq. }
  rewrite <- Hperm in Hnd. cbn in Hnd. apply NoDup_cons in Hnd as [Hnotin _].
  assert (eating (set_events heap s) (philosopher event) = false) as Hmine.
  { destruct (eating (set_events heap s) (philosopher event)) eqn:E; [|done].
    apply eating_true in E as (e' & Hin' & Heq & _). cbn in Hin'.
    exfalso. apply Hnotin. rewrite <- Heq. by apply list_elem_of_fmap_2. }
  set (s2 := set_events (heapq.heappush Event_lt heap next) s1).
  assert (events s2 ≡ₚ next :: events (set_events heap s)) as Hev2.
  { subst s2. cbn -[heapq.heappush]. apply heapq_facts.heappush_Permutation. }
  assert (events s ≡ₚ event :: events (set_events heap s)) as Hev0.
  { by symmetry. }
  assert (forall j, j <> philosopher event -> eating s2 j = eating s j) as Hothers.
  { intros j Hj. apply eq_true_iff_eq.
    rewrite (eating_pushed _ _ _ j Hev2), (eating_pushed _ _ _ j Hev0).
    rewrite Hn. intuition congruence. }
  assert (eating s2 (philosopher event) = true <-> type next = FINISH) as Hnext.
  { rewrite (eating_pushed _ _ _ _ Hev2), Hmine, Hn. intuition congruence. }
  assert (eating s (philosopher event) = true <-> type event = FINISH) as Hprev.
  { rewrite (eating_pushed _ _ _ _ Hev0), Hmine. intuition congruence. }
  destruct (type event) eqn:Hty.
  - rewrite (request_eq _ (set_events heap s) _ _ p l r Hp Hl Hr) in Hh.
    rewrite (Qeq_bool_false_of_pos _ Hmi), (Qeq_bool_false_of_pos _ Hla) in Hh.
    assert (eating s (philosopher event) = false) as Hwaiting.
    { destruct (eating s (philosopher event)); [|done].
      by destruct Hprev as [Hprev _]; specialize (Hprev eq_refl). }
    destruct (_ && _) in Hh; injection Hh as <- <-; eexists p, _, heap, _;
      (split; [done|]); (split; [reflexivity|]); (split; [done|]);
      (split; [reflexivity|]); (split; [done|]).
    + split. { cbn. specialize (expovariate_nonneg _ (gen s) Hmi). lra. }
      repeat split; try done; try apply Hnext; auto.
    + split. { cbn. specialize (expovariate_nonneg _ (gen s) Hla). lra. }
      repeat split; try done; try apply Hnext; auto.
  - rewrite (finish_eq _ (set_events heap s) _ _ p l r Hp Hl Hr) in Hh.
    rewrite (Qeq_bool_false_of_pos _ Hla) in Hh.
    injection Hh as <- <-. eexists p, _, heap, _.
    split; [done|]. split; [reflexivity|]. split; [done|].
    split; [reflexivity|]. split; [done|].
    split. { cbn. specialize (expovariate_nonneg _ (gen s) Hla). lra. }
    repeat split; try done; try apply Hnext; auto. by apply Hprev.
Qed.

(** A turn moves the clock forward and keeps the queue timely. *)
Lemma turn_timely k s clock event s' :
  seated k s -> positive_rates s -> timely clock s -> (0 <= clock)%Q ->
  iteration expovariate s = Ok (event, s') ->
  (clock <= time event)%Q /\ timely (time event) s'.
Proof.
  intros Hs Hpos (Hheap & Hfuture & Hstart) Hclock Hit.
  destruct (turn_effect _ _ _ _ Hs Hpos Hit)
    as (p & p' & heap & next & Hp & Hps & Hpop & Hev & Hn & Hle & _ & _ & Heff).
  pose proof (heapq_facts.heappop_Permutation _ _ _ _ Hpop) as Hperm.
  assert (clock <= time event)%Q as Hnow.
  { apply Hfuture. rewrite <- Hperm. left. }
  split; [done|]. split; [|split].
  - rewrite Hev. eapply events_heappush_heap, events_heappop_heap; eauto.
  - intros e. rewrite Hev, heapq_facts.heappush_Permutation.
    intros [->|Hin]%elem_of_cons; [done|].
    eapply events_heappop_min; eauto. rewrite <- Hperm. by right.
  - intros q Hq. rewrite Hps in Hq.
    apply list_elem_of_lookup in Hq as [j Hq].
    apply list_lookup_insert_Some in Hq as [(<- & <- & _) | [_ Hq]].
    + destruct (Hstart p) as [H0 H1]; [by eapply list_elem_of_lookup_2|].
      destruct (type event).
      * destruct Heff as (_ & _ & _ & [[_ ->] | [_ ->]]); split; lra.
      * destruct Heff as (_ & _ & _ & -> & _). split; lra.
    + destruct (Hstart q) as [H0 H1]; [by eapply list_elem_of_lookup_2|].
      split; lra.
Qed.

(** The seeding loop: every actor requests at time zero. *)
Lemma seed_seeding m k s s' :
  seated k s -> positive_rates s -> seeding k s ->
  k + m <= length (philosophers s) ->
  seed expovariate (seq k m) 0 s = Ok s' ->
  seeding (k + m) s'.
Proof.
  revert k s. induction m as [|m IH]; intros k s Hs Hpos Hsd Hkm.
  - cbn. intros [= <-]. by rewrite Nat.add_0_r.
  - cbn [seq seed].
    destruct (request expovariate k 0 s) as [[ev s1]|] eqn:Hreq; [|done].
    cbn -[heapq.heappush]. intros Hseed.
    set (s2 := set_events (heapq.heappush Event_lt (events s1) ev) s1) in *.
    destruct (lookup_lt_is_Some_2 (philosophers s) k) as [p Hp]; [lia|].
    pose proof (request_frame _ _ _ _ _ _ Hreq) as (_ & Hev & Hself & Hlen & _).
    assert (events s2 ≡ₚ ev :: events s) as Hev2.
    { subst s2. cbn -[heapq.heappush].
      by rewrite heapq_facts.heappush_Permutation, Hev. }
    pose proof Hs as (Hsafe & Hpend & Hk).
    destruct (request_step expovariate s k 0 p ev s1 s2) as [Hsafe2 HF2]; try done.
    replace (k + S m) with (S k + m) by lia.
    apply (IH (S k) s2); [| | |subst s2; cbn; lia|done].
    + split; [done|]. split; [|subst s2; cbn; lia].
      unfold pending. rewrite Hev2, fmap_cons, Hself, Hpend, seq_S.
      by rewrite Permutation_app_comm.
    + by eapply positive_rates_same_seats.
    + destruct Hsd as ((Hheap & Hfuture & Hstart) & Hfresh).
      destruct Hsafe as (Hw & _).
      destruct (Hw k p Hp) as (l & r & Hl & Hr & _).
      destruct (Hpos p) as [Hmi Hla]; [by eapply list_elem_of_lookup_2|].
      destruct (Hfresh k p Hp) as (Het & Hst & Hrq).
      rewrite decide_False in Hrq by lia.
      rewrite (request_eq _ _ _ _ _ _ _ Hp Hl Hr) in Hreq.
      rewrite (Qeq_bool_false_of_pos _ Hmi), (Qeq_bool_false_of_pos _ Hla) in Hreq.
      assert ((0 <= time ev)%Q /\
              exists p', philosophers s2 = <[k := p']> (philosophers s) /\
                         eating_time p' = 0%Q /\ started_at p' = 0%Q /\
                         requests p' = [0%Q]) as (Htime & p' & Hps & Het' & Hst' & Hrq').
      { destruct (_ && _) in Hreq; injection Hreq as <- <-; cbn.
        - split. { specialize (expovariate_nonneg _ (gen s) Hmi). lra. }
          eexists. split; [reflexivity|]. cbn. by rewrite Hrq.
        - split. { specialize (expovariate_nonneg _ (gen s) Hla). lra. }
          eexists. split; [reflexivity|]. cbn. by rewrite Hrq. }
      split; [split; [|split]|].
      * subst s2. cbn -[heapq.heappush]. rewrite Hev.
        by apply events_heappush_heap.
      * intros e. rewrite Hev2. intros [->|Hin]%elem_of_cons; auto.
      * intros q Hq. rewrite Hps in Hq.
        apply list_elem_of_lookup in Hq as [j Hq].
        apply list_lookup_insert_Some in Hq as [(<- & <- & _) | [_ Hq]].
        -- rewrite Hst'. split; lra.
        -- apply Hstart. by eapply list_elem_of_lookup_2.
      * intros i q Hq. rewrite Hps in Hq.
        apply list_lookup_insert_Some in Hq as [(<- & <- & _) | [Hne Hq]].
        -- rewrite decide_True by lia. done.
        -- destruct (Hfresh i q Hq) as (? & ? & Hrqi).
           split; [done|]. split; [done|]. rewrite Hrqi.
           destruct (decide (i < k)).
           ++ by rewrite decide_True by lia.
           ++ by rewrite decide_False by lia.
Qed.

Lemma init_seeding mi T lambdas (g : rng) :
  seeding 0 (Simulation_init mi T lambdas g).
Proof.
  split; [split; [|split]|].
  - intros i Hi. cbn in Hi. lia.
  - intros e He. cbn in He. by apply elem_of_nil in He.
  - intros p Hp. apply list_elem_of_lookup in Hp as [i Hp].
    rewrite Simulation_init_philosophers in Hp.
    destruct (lambdas !! i); [|done]. injection Hp as <-. cbn. split; lra.
  - intros i p Hp. rewrite Simulation_init_philosophers in Hp.
    destruct (lambdas !! i); [|done]. by injection Hp as <-.
Qed.

(** The state that the seeding loop leaves. *)
Lemma seeded_start mi T lambdas (g : rng) s1 :
  (0 < mi)%Q -> Forall (fun x => (0 < x)%Q) lambdas ->
  seeded expovariate (Simulation_init mi T lambdas g) s1 ->
  seated (length lambdas) s1 /\ positive_rates s1 /\
  seeding (length lambdas) s1 /\
  length (philosophers s1) = length lambdas.
Proof.
  intros Hmi Hla Hseed. unfold seeded in Hseed.
  destruct (Simulation_init_lengths mi T lambdas g) as [Hlen _].
  pose proof (init_positive_rates mi T lambdas g Hmi Hla) as Hpos.
  rewrite Hlen in Hseed. pose proof Hseed as Hseed'.
  apply seed_seated in Hseed' as [Hs HF];
    [|apply init_seated|rewrite Hlen; lia].
  cbn in Hs. split; [done|]. split; [|split].
  - by eapply positive_rates_same_seats.
  - apply seed_seeding in Hseed;
      [done | apply init_seated | done | apply init_seeding | rewrite Hlen; lia].
  - by rewrite <- (Forall2_length _ _ _ HF).
Qed.

(** *** The history of a run *)

Lemma StronglySorted_snoc {A} (R : A -> A -> Prop) l x :
  StronglySorted R l -> Forall (fun y => R y x) l ->
  StronglySorted R (l ++ [x]).
Proof.
  induction 1 as [|y l Hs IH Hy]; intros HF; cbn.
  - repeat constructor.
  - apply Forall_cons in HF as [Hyx HF]. constructor; [by apply IH|].
    apply Forall_app. split; [done|]. by constructor.
Qed.

Lemma last_clock_snoc clock tr event s :
  last_clock clock (tr ++ [(event, s)]) = time event.
Proof. unfold last_clock. by rewrite last_snoc. Qed.

Lemma times_snoc tr event s :
  times (tr ++ [(event, s)]) = times tr ++ [time event].
Proof. unfold times. by rewrite fmap_snoc. Qed.

Lemma request_times_snoc i tr event s :
  request_times i (tr ++ [(event, s)]) =
    request_times i tr ++
      (if decide (philosopher event = i /\ type event = REQUEST)
       then [time event] else []).
Proof.
  unfold request_times. rewrite filter_app, fmap_app. f_equal.
  destruct (decide (philosopher event = i /\ type event = REQUEST)).
  - by rewrite filter_cons_True.
  - by rewrite filter_cons_False.
Qed.

(** Along a run from the seeded state: the invariants of the table and
    of the clock hold, the processed events come in non-decreasing
    order of time, and each request log lists the seeding call and the
    REQUEST events dispatched to the actor. *)
Lemma history_times mi T lambdas (g : rng) s1 tr s :
  (0 < mi)%Q -> Forall (fun x => (0 < x)%Q) lambdas ->
  seeded expovariate (Simulation_init mi T lambdas g) s1 ->
  turns expovariate s1 tr s ->
  seated (length lambdas) s /\ positive_rates s /\
  length (philosophers s) = length lambdas /\
  timely (last_clock 0 tr) s /\ (0 <= last_clock 0 tr)%Q /\
  StronglySorted Qle (times tr) /\
  Forall (fun t => (0 <= t)%Q /\ (t <= last_clock 0 tr)%Q) (times tr) /\
  forall i p, philosophers s !! i = Some p ->
    requests p = 0%Q :: request_times i tr /\
    StronglySorted Qle (requests p) /\
    Forall (fun t => (t <= last_clock 0 tr)%Q) (requests p).
Proof.
  intros Hmi Hla Hseed Htr.
  destruct (seeded_start _ _ _ _ _ Hmi Hla Hseed) as (Hs1 & Hpos1 & Hsd1 & Hlen1).
  revert tr s Htr. apply turns_ind_r.
  - destruct Hsd1 as [Htimely Hfresh].
    split; [done|]. split; [done|]. split; [done|]. split; [done|].
    split; [cbn; lra|]. split; [constructor|]. split; [constructor|].
    intros i p Hp. destruct (Hfresh i p Hp) as (_ & _ & Hrq).
    apply lookup_lt_Some in Hp.
    rewrite decide_True in Hrq by lia. rewrite Hrq.
    split; [done|]. split; repeat constructor. cbn. lra.
  - intros tr sa event sb _
      (Hs & Hpos & Hlen & Htimely & Hclock & Hsorted & Hbound & Hlog) Hit.
    destruct (turn_seated _ _ _ _ _ Hs Hit) as [Hs' HF].
    destruct (turn_timely _ _ _ _ _ Hs Hpos Htimely Hclock Hit) as [Hnow Htimely'].
    destruct (turn_effect _ _ _ _ Hs Hpos Hit)
      as (p & p' & heap & next & Hp & Hps & _ & _ & _ & _ & _ & _ & Heff).
    rewrite last_clock_snoc, times_snoc.
    split; [done|]. split; [by eapply positive_rates_same_seats|].
    split; [by rewrite <- (Forall2_length _ _ _ HF)|].
    split; [done|]. split; [lra|]. split; [|split].
    + apply StronglySorted_snoc; [done|].
      eapply Forall_impl; [exact Hbound|]. cbn. intros t [_ Ht]. lra.
    + apply Forall_app. split.
      * eapply Forall_impl; [exact Hbound|]. cbn. intros t [? ?]. split; lra.
      * apply Forall_singleton. split; lra.
    + intros i q Hq. rewrite Hps in Hq. rewrite request_times_snoc.
      apply list_lookup_insert_Some in Hq as [(<- & <- & _) | [Hne Hq]].
      * destruct (Hlog _ p Hp) as (Hrq & Hrs & Hrb).
        destruct (type event) eqn:Hty.
        -- destruct Heff as (_ & -> & _).
           rewrite decide_True by done. rewrite Hrq at 1.
           split; [done|]. split.
           ++ apply StronglySorted_snoc; [done|].
              eapply Forall_impl; [exact Hrb|]. cbn. intros t Ht. lra.
           ++ apply Forall_app. split.
              ** eapply Forall_impl; [exact Hrb|]. cbn. intros t Ht. lra.
              ** apply Forall_singleton. lra.
        -- destruct Heff as (_ & -> & _).
           rewrite decide_False by (intros [_ [=]]).
           rewrite app_nil_r. split; [done|]. split; [done|].
           eapply Forall_impl; [exact Hrb|]. cbn. intros t Ht. lra.
      * destruct (Hlog _ q Hq) as (Hrq & Hrs & Hrb).
        rewrite decide_False by (intros [? _]; congruence).
        rewrite app_nil_r. split; [done|]. split; [done|].
        eapply Forall_impl; [exact Hrb|]. cbn. intros t Ht. lra.
Qed.

(** C7, as the code has it. With rates above zero, the events of a run
    are processed in non-decreasing order of time; each request log is
    non-decreasing (a draw of zero repeats a timestamp, so it need not
    be strictly increasing), and it lists the time of every call of
    [request] on the actor: the seeding call at time zero, then the
    REQUEST events dispatched to it, in order. *)
Theorem processed_times_sorted mi T lambdas (g : rng) s1 tr s :
  (0 < mi)%Q -> Forall (fun x => (0 < x)%Q) lambdas ->
  seeded expovariate (Simulation_init mi T lambdas g) s1 ->
  turns expovariate s1 tr s ->
  StronglySorted Qle (times tr) /\
  forall i p, philosophers s !! i = Some p ->
    StronglySorted Qle (requests p) /\
    requests p = 0%Q :: request_times i tr /\
    length (requests p) = S (length (request_times i tr)).
Proof.
  intros Hmi Hla Hseed Htr.
  destruct (history_times _ _ _ _ _ _ _ Hmi Hla Hseed Htr)
    as (_ & _ & _ & _ & _ & Hsorted & _ & Hlog).
  split; [done|]. intros i p Hp.
  destruct (Hlog i p Hp) as (Hrq & Hrs & _).
  split; [done|]. split; [done|]. by rewrite Hrq.
Qed.

(** *** Busy time *)

Lemma busy_intervals_snoc i tr event s :
  busy_intervals i (tr ++ [(event, s)]) =
    busy_intervals i tr ++
      (if decide (philosopher event = i /\ type event = FINISH)
       then [(started_at (philosophers s !!! i), time event)] else []).
Proof.
  unfold busy_intervals. rewrite filter_app, fmap_app. f_equal.
  destruct (decide (philosopher event = i /\ type event = FINISH)).
  - by rewrite filter_cons_True.
  - by rewrite filter_cons_False.
Qed.

Lemma finishes_snoc tr event s :
  finishes (tr ++ [(event, s)]) =
    finishes tr + (if decide (type event = FINISH) then 1 else 0).
Proof.
  unfold finishes. rewrite filter_app, length_app. f_equal.
  destruct (decide (type event = FINISH)).
  - by rewrite filter_cons_True.
  - by rewrite filter_cons_False.
Qed.

Lemma total_length_snoc l x :
  (total_length (l ++ [x]) == total_length l + (x.2 - x.1))%Q.
Proof.
  induction l as [|y l IH]; cbn.
  - ring.
  - fold (total_length (l ++ [x])). fold (total_length l). rewrite IH. ring.
Qed.

Lemma total_eating_time_insert (ps : list Philosopher) i p p' :
  ps !! i = Some p ->
  (foldr Qplus 0 (eating_time <$> <[i := p']> ps)
   == foldr Qplus 0 (eating_time <$> ps) + (eating_time p' - eating_time p))%Q.
Proof.
  revert i. induction ps as [|q ps IH]; intros [|i] Hp; try done; cbn in *.
  - injection Hp as ->. ring.
  - rewrite (IH i Hp). ring.
Qed.

Lemma chain_snoc l x :
  chain l -> Forall (fun y => (y.2 <= x.1)%Q) l -> (x.1 <= x.2)%Q ->
  chain (l ++ [x]).
Proof.
  intros [Hs Hw] Hbefore Hx. split.
  - by apply StronglySorted_snoc.
  - apply Forall_app. split; [done|]. by apply Forall_singleton.
Qed.

Lemma Q_of_nat_nonneg n : (0 <= Q_of_nat n)%Q.
Proof. unfold Q_of_nat, Qle. cbn. lia. Qed.

Lemma Q_of_nat_succ n : (Q_of_nat (n + 1) == Q_of_nat n + 1)%Q.
Proof.
  unfold Q_of_nat. rewrite Nat2Z.inj_add, inject_Z_plus. reflexivity.
Qed.

(** Along a run: the accumulated busy time is bounded through the
    clock, and the busy intervals that each actor has closed follow one
    another without overlap and add up to its [eating_time]. *)
Lemma history_busy mi T lambdas (g : rng) s1 tr s :
  (0 < mi)%Q -> Forall (fun x => (0 < x)%Q) lambdas ->
  seeded expovariate (Simulation_init mi T lambdas g) s1 ->
  turns expovariate s1 tr s ->
  (total_eating_time s <= Q_of_nat (finishes tr) * last_clock 0 tr)%Q /\
  forall i p, philosophers s !! i = Some p ->
    chain (busy_intervals i tr) /\
    Forall (fun x => (x.2 <= last_clock 0 tr)%Q) (busy_intervals i tr) /\
    (eating s i = true ->
     Forall (fun x => (x.2 <= started_at p)%Q) (busy_intervals i tr)) /\
    (eating_time p == total_length (busy_intervals i tr))%Q.
Proof.
  intros Hmi Hla Hseed Htr.
  destruct (seeded_start _ _ _ _ _ Hmi Hla Hseed) as (_ & _ & [_ Hfresh] & _).
  revert tr s Htr. apply turns_ind_r.
  - split.
    + unfold total_eating_time, finishes, Q_of_nat. cbn.
      assert (forall ps : list Philosopher,
                Forall (fun p => eating_time p = 0%Q) ps ->
                (foldr Qplus 0 (eating_time <$> ps) == 0)%Q) as Hzero.
      { induction 1 as [|q ps Hq _ IH]; cbn; [reflexivity|].
        rewrite Hq, IH. ring. }
      rewrite Hzero; [lra|]. apply Forall_lookup. intros i p Hp.
      by destruct (Hfresh i p Hp) as (? & _).
    + intros i p Hp. destruct (Hfresh i p Hp) as (Het & _).
      split; [split; constructor|]. split; [constructor|].
      split; [constructor|]. rewrite Het. reflexivity.
  - intros tr sa event sb Hpre [Htotal Hbusy] Hit.
    destruct (history_times _ _ _ _ _ _ _ Hmi Hla Hseed Hpre)
      as (Hs & Hpos & Hlen & Htimely & Hclock & _).
    destruct (turn_timely _ _ _ _ _ Hs Hpos Htimely Hclock Hit) as [Hnow _].
    destruct (turn_effect _ _ _ _ Hs Hpos Hit)
      as (p & p' & heap & next & Hp & Hps & _ & _ & _ & _ & Hothers & Hnext & Heff).
    destruct Htimely as (_ & _ & Hstart).
    destruct (Hstart p) as [Hst0 Hst1]; [by eapply list_elem_of_lookup_2|].
    pose proof (lookup_lt_Some _ _ _ Hp) as Hlt.
    pose proof (Q_of_nat_nonneg (finishes tr)) as Hn.
    rewrite last_clock_snoc, finishes_snoc. split.
    + unfold total_eating_time in *. rewrite Hps.
      rewrite (total_eating_time_insert _ _ p p' Hp).
      destruct (type event) eqn:Hty.
      * destruct Heff as (_ & _ & -> & _).
        rewrite decide_False by done. rewrite Nat.add_0_r. nra.
      * destruct Heff as (_ & _ & -> & _).
        rewrite decide_True by done. rewrite Q_of_nat_succ. nra.
    + intros i q Hq. rewrite busy_intervals_snoc.
      rewrite Hps in Hq.
      apply list_lookup_insert_Some in Hq as [(<- & <- & _) | [Hne Hq]].
      * destruct (Hbusy _ p Hp) as (Hchain & Hend & Heat & Hsum).
        destruct (type event) eqn:Hty.
        -- destruct Heff as (_ & _ & Het & Hstarted).
           rewrite decide_False by (intros [_ [=]]). rewrite app_nil_r.
           split; [done|]. split; [|split].
           ++ eapply Forall_impl; [exact Hend|]. cbn. intros x Hx. lra.
           ++ intros He. apply Hnext in He.
              destruct Hstarted as [[_ ->] | [Hreq _]]; [|congruence].
              eapply Forall_impl; [exact Hend|]. cbn. intros x Hx. lra.
           ++ by rewrite Het.
        -- destruct Heff as (Hwas & _ & Het & Hst & Hreq).
           rewrite decide_True by done.
           rewrite Hps, list_lookup_total_insert_eq by done. rewrite Hst.
           split; [|split; [|split]].
           ++ apply chain_snoc; [done|by apply Heat|cbn; lra].
           ++ apply Forall_app. split.
              ** eapply Forall_impl; [exact Hend|]. cbn. intros x Hx. lra.
              ** apply Forall_singleton. cbn. lra.
           ++ intros He. apply Hnext in He. congruence.
           ++ rewrite total_length_snoc, Het, Hsum. cbn. ring.
      * destruct (Hbusy _ q Hq) as (Hchain & Hend & Heat & Hsum).
        rewrite decide_False by (intros [? _]; congruence).
        rewrite app_nil_r. split; [done|]. split; [|split; [|done]].
        -- eapply Forall_impl; [exact Hend|]. cbn. intros x Hx. lra.
        -- rewrite Hothers by done. exact Heat.
Qed.

(** C9, as the code has it. With rates above zero, at every point of a
    run the sum over the actors of [eating_time] is at most the number
    of FINISH events processed times the clock, that is, the time of
    the last processed event (which is at or beyond [T] when the run
    ends, not [T] itself); and the busy intervals of each actor follow
    one another without overlap and add up to its [eating_time]. *)
Theorem busy_time_bound mi T lambdas (g : rng) s1 tr s :
  (0 < mi)%Q -> Forall (fun x => (0 < x)%Q) lambdas ->
  seeded expovariate (Simulation_init mi T lambdas g) s1 ->
  turns expovariate s1 tr s ->
  (total_eating_time s <= Q_of_nat (finishes tr) * last_clock 0 tr)%Q /\
  forall i p, philosophers s !! i = Some p ->
    chain (busy_intervals i tr) /\
    (eating_time p == total_length (busy_intervals i tr))%Q.
Proof.
  intros Hmi Hla Hseed Htr.
  destruct (history_busy _ _ _ _ _ _ _ Hmi Hla Hseed Htr) as [Htotal Hbusy].
  split; [done|]. intros i p Hp.
  by destruct (Hbusy i p Hp) as (? & _ & _ & ?).
Qed.
End Clock.

(** A run over three actors in which actor 1 draws a delay of zero: its
    second retry is dispatched at the time of the first, and its request
    log repeats the timestamp 1/2. *)
Lemma request_log_not_strict :
  exists fin,
    run scripted 10
      (Simulation_init 1 1 [1; 1; 1]%Q
         ([(5%N, 1%positive); (1%N, 2%positive); (3%N, 1%positive);
           (0%N, 1%positive); (2%N, 1%positive); (1%N, 1%positive)] : script))
      = Some (Ok fin) /\
    requests (philosophers fin !!! 1) = [0; 1 # 2; 1 # 2; 5 # 2]%Q /\
    ~ StronglySorted Qlt (requests (philosophers fin !!! 1)).
Proof.
  eexists. split; [vm_compute; reflexivity|].
  split; [reflexivity|].
  cbn. intros H.
  apply StronglySorted_inv in H as [H _].
  apply StronglySorted_inv in H as [_ H].
  apply Forall_inv in H. by vm_compute in H.
Qed.

Lemma processed_times_sorted_witness :
  exists s1 tr s,
    seeded scripted
      (Simulation_init 1 1 [1; 1; 1]%Q
         ([(5%N, 1%positive); (1%N, 2%positive); (3%N, 1%positive);
           (0%N, 1%positive)] : script)) s1 /\
    turns scripted s1 tr s /\ length tr = 2 /\
    StronglySorted Qle (times tr).
Proof.
  assert (exists s1 e2 s2 e3 s3,
            seeded scripted
              (Simulation_init 1 1 [1; 1; 1]%Q
                 ([(5%N, 1%positive); (1%N, 2%positive); (3%N, 1%positive);
                   (0%N, 1%positive)] : script)) s1 /\
            iteration scripted s1 = Ok (e2, s2) /\
            iteration scripted s2 = Ok (e3, s3))
    as (s1 & e2 & s2 & e3 & s3 & Hseed & Hit2 & Hit3).
  { eexists _, _, _, _, _. split; [vm_compute; reflexivity|].
    split; vm_compute; reflexivity. }
  assert (turns scripted s1 [(e2, s2); (e3, s3)] s3) as Htr.
  { econstructor; [exact Hit2|]. econstructor; [exact Hit3|]. constructor. }
  exists s1, [(e2, s2); (e3, s3)], s3.
  split; [exact Hseed|]. split; [exact Htr|]. split; [reflexivity|].
  eapply (processed_times_sorted scripted scripted_nonneg 1 1 [1; 1; 1]%Q);
    [reflexivity | repeat constructor | exact Hseed | exact Htr].
Defined.

(** A run over three actors with horizon 1 in which actor 0 eats from
    time 0 to time 5: the terminating event is its FINISH, the only one
    processed, and the accumulated busy time is 5, above 1 * T. *)
Lemma busy_time_exceeds_horizon :
  exists s1 tr s fin,
    seeded scripted
      (Simulation_init 1 1 [1; 1; 1]%Q
         ([(5%N, 1%positive); (7%N, 1%positive); (8%N, 1%positive);
           (2%N, 1%positive)] : script)) s1 /\
    turns scripted s1 tr s /\
    run scripted 10
      (Simulation_init 1 1 [1; 1; 1]%Q
         ([(5%N, 1%positive); (7%N, 1%positive); (8%N, 1%positive);
           (2%N, 1%positive)] : script)) = Some (Ok fin) /\
    fin = set_events [] s /\
    finishes tr = 1 /\
    total_eating_time fin = 5%Q /\
    ~ (total_eating_time fin <= Q_of_nat (finishes tr) * T fin)%Q.
Proof.
  eexists _, [(_, _)], _, _.
  split; [vm_compute; reflexivity|].
  split; [eapply turns_cons; [vm_compute; reflexivity|apply turns_nil]|].
  split; [vm_compute; reflexivity|].
  split; [reflexivity|]. split; [reflexivity|]. split; [reflexivity|].
  intros H. vm_compute in H. by apply H.
Qed.

Lemma busy_time_bound_witness :
  exists s1 tr s,
    seeded scripted
      (Simulation_init 1 1 [1; 1; 1]%Q
         ([(5%N, 1%positive); (7%N, 1%positive); (8%N, 1%positive);
           (2%N, 1%positive)] : script)) s1 /\
    turns scripted s1 tr s /\ finishes tr = 1 /\
    (total_eating_time s <= Q_of_nat (finishes tr) * last_clock 0 tr)%Q.
Proof.
  assert (exists s1 e2 s2,
            seeded scripted
              (Simulation_init 1 1 [1; 1; 1]%Q
                 ([(5%N, 1%positive); (7%N, 1%positive); (8%N, 1%positive);
                   (2%N, 1%positive)] : script)) s1 /\
            iteration scripted s1 = Ok (e2, s2) /\ type e2 = FINISH)
    as (s1 & e2 & s2 & Hseed & Hit2 & Hty).
  { eexists _, _, _. split; [vm_compute; reflexivity|].
    split; [vm_compute; reflexivity|reflexivity]. }
  assert (turns scripted s1 [(e2, s2)] s2) as Htr.
  { econstructor; [exact Hit2|]. constructor. }
  exists s1, [(e2, s2)], s2.
  split; [exact Hseed|]. split; [exact Htr|]. split.
  { unfold finishes. by rewrite filter_cons_True. }
  eapply (busy_time_bound scripted scripted_nonneg 1 1 [1; 1; 1]%Q);
    [reflexivity | repeat constructor | exact Hseed | exact Htr].
Defined.


(** * Further properties of the code *)

(** ** What a run can raise, and what it leaves as it was *)

Section Frame.
Context {rng : Type} (expovariate : Q -> rng -> Q * rng).
Implicit Types s : Simulation (rng := rng).

(** An actor of a table that descends from [Simulation.__init__] has the
    rates and the chopsticks that [__init__] gave it. *)
Lemma seat_of_init mu horizon lambdas (g : rng) (ps : list Philosopher) i p :
  Forall2 same_seat (philosophers (Simulation_init mu horizon lambdas g)) ps ->
  ps !! i = Some p ->
  mi p = mu /\ lambdas !! i = Some (lambda_i p) /\
  left_chopstick p = Some i /\
  right_chopstick p = Some ((i + 1) mod length lambdas).
Proof.
  intros HF Hp.
  destruct (Forall2_lookup_r _ _ _ _ _ HF Hp) as (p0 & Hp0 & Hl & Hr & Hm & Hla).
  rewrite Simulation_init_philosophers in Hp0.
  destruct (lambdas !! i) as [x|]; [|done]. injection Hp0 as <-.
  cbn in *. by rewrite <- Hl, <- Hr, <- Hm, <- Hla.
Qed.

Lemma seed_T refs t s s' : seed expovariate refs t s = Ok s' -> T s' = T s.
Proof.
  revert s. induction refs as [|i refs IH]; intros s; cbn -[heapq.heappush].
  - by intros [= <-].
  - destruct (request expovariate i t s) as [[ev s1]|] eqn:Hreq; [|done].
    cbn -[heapq.heappush]. intros Hs%IH. rewrite Hs. cbn.
    by apply request_frame in Hreq as [-> _].
Qed.

Lemma seed_Raise_inv m k t s e :
  seed expovariate (seq k m) t s = Raise e ->
  exists j s', j < m /\ seed expovariate (seq k j) t s = Ok s' /\
               request expovariate (k + j) t s' = Raise e.
Proof.
  revert k s. induction m as [|m IH]; intros k s; [done|].
  cbn [seq seed].
  destruct (request expovariate k t s) as [[ev s1]|e'] eqn:Hreq;
    cbn -[heapq.heappush].
  - intros (j & s' & Hj & Hseed & Hr)%IH. exists (S j), s'.
    split; [lia|]. split.
    + cbn [seq seed]. rewrite Hreq. cbn -[heapq.heappush]. exact Hseed.
    + by replace (k + S j) with (S k + j) by lia.
  - intros [= <-]. exists 0, s. split; [lia|]. split; [done|].
    by rewrite Nat.add_0_r.
Qed.

(** On a seated table a turn raises [IndexError] on an empty queue and
    [ZeroDivisionError] on a zero rate, nothing else. *)
Lemma iteration_Raise_seated k s e :
  seated k s -> iteration expovariate s = Raise e ->
  (e = IndexError /\ events s = []) \/
  (e = ZeroDivisionError /\
   exists i p, philosophers s !! i = Some p /\
               (Qeq_bool (mi p) 0 = true \/ Qeq_bool (lambda_i p) 0 = true)).
Proof.
  intros ((Hw & _) & Hpend & Hk). unfold iteration.
  destruct (heapq.heappop Event_lt (events s)) as [[x heap]|e'] eqn:Hpop;
    cbn -[heapq.heappush].
  - pose proof (heapq_facts.heappop_Permutation _ _ _ _ Hpop) as Hperm.
    assert (philosopher x ∈ seq 0 k) as Hin.
    { rewrite <- Hpend, <- Hperm. left. }
    apply elem_of_seq in Hin.
    destruct (lookup_lt_is_Some_2 (philosophers s) (philosopher x)) as [p Hp];
      [lia|].
    destruct (Hw _ p Hp) as (l & r & Hl & Hr & _).
    destruct (type x).
    + destruct (request _ _ _ _) as [[next s1]|e'] eqn:Hh; [done|].
      cbn. intros [= <-]. right.
      destruct (request_Raise_wired _ (set_events heap s) _ _ p l r _ Hp Hl Hr Hh)
        as [-> Hz].
      split; [done|]. eauto.
    + destruct (finish _ _ _ _) as [[next s1]|e'] eqn:Hh; [done|].
      cbn. intros [= <-]. right.
      destruct (finish_Raise_wired _ (set_events heap s) _ _ p l r _ Hp Hl Hr Hh)
        as [-> Hz].
      split; [done|]. eauto.
  - intros [= <-]. left. by apply heapq_facts.heappop_Raise in Hpop as [-> ->].
Qed.

(** X3. [Simulation.run] raises [IndexError] only over no actor and
    [ZeroDivisionError] only when a rate is zero; it raises nothing else
    (no [AttributeError]: [__init__] leaves no chopstick reference
    unset). *)
Theorem run_errors mu horizon lambdas (g : rng) fuel e :
  run expovariate fuel (Simulation_init mu horizon lambdas g) = Some (Raise e) ->
  (e = IndexError /\ lambdas = []) \/
  (e = ZeroDivisionError /\ lambdas <> [] /\
   ((mu == 0)%Q \/ Exists (fun x => (x == 0)%Q) lambdas)).
Proof.
  assert (forall (ps : list Philosopher) i p,
            Forall2 same_seat (philosophers (Simulation_init mu horizon lambdas g)) ps ->
            ps !! i = Some p ->
            Qeq_bool (mi p) 0 = true \/ Qeq_bool (lambda_i p) 0 = true ->
            lambdas <> [] /\ ((mu == 0)%Q \/ Exists (fun x => (x == 0)%Q) lambdas))
    as Hzero.
  { intros ps i p HF Hp Hz.
    destruct (seat_of_init _ _ _ _ _ _ _ HF Hp) as (Hm & Hla & _).
    split; [intros ->; done|].
    destruct Hz as [Hz | Hz]; apply Qeq_bool_iff in Hz.
    - left. by rewrite <- Hm.
    - right. apply Exists_exists. exists (lambda_i p).
      split; [by eapply list_elem_of_lookup_2|done]. }
  destruct (Simulation_init_lengths mu horizon lambdas g) as [Hlen _].
  unfold run. rewrite Hlen.
  destruct (seed expovariate (seq 0 (length lambdas)) 0 _) as [s1|e'] eqn:Hseed.
  - intros (tr & s' & Htr & Hr)%loop_Raise_inv.
    assert (reachable expovariate (Simulation_init mu horizon lambdas g) s') as Hreach.
    { exists s1, tr. split; [|done]. unfold seeded. by rewrite Hlen. }
    destruct (reachable_seated _ _ _ _ _ _ Hreach) as [Hs HF].
    pose proof (seated_events_length _ _ Hs) as Hn.
    apply (iteration_Raise_seated _ _ _ Hs) in Hr
      as [[-> Hnil] | (-> & i & p & Hp & Hz)].
    + left. split; [done|]. rewrite Hnil in Hn. by destruct lambdas.
    + right. split; [done|]. eauto.
  - intros [= <-].
    apply seed_Raise_inv in Hseed as (j & s' & Hj & Hpre & Hr).
    apply seed_seated in Hpre as [Hs HF];
      [|apply init_seated|rewrite Hlen; lia].
    cbn in Hs, Hr.
    destruct Hs as ((Hw & _) & _ & _).
    destruct (lookup_lt_is_Some_2 (philosophers s') j) as [p Hp].
    { rewrite <- (Forall2_length _ _ _ HF), Hlen. lia. }
    destruct (Hw _ p Hp) as (l & r & Hl & Hr' & _).
    destruct (request_Raise_wired _ _ _ _ p l r _ Hp Hl Hr' Hr) as [-> Hz].
    right. split; [done|]. eauto.
Qed.

(** X4. A run changes neither the horizon, nor the number of actors and
    chopsticks, nor any actor's rates or chopstick references: at every
    head of the loop they are those that [Simulation.__init__] set. *)
Theorem parameters_kept mu horizon lambdas (g : rng) s :
  reachable expovariate (Simulation_init mu horizon lambdas g) s ->
  T s = horizon /\
  length (philosophers s) = length lambdas /\
  length (chopsticks s) = length lambdas /\
  forall i p, philosophers s !! i = Some p ->
    mi p = mu /\ lambdas !! i = Some (lambda_i p) /\
    left_chopstick p = Some i /\
    right_chopstick p = Some ((i + 1) mod length lambdas).
Proof.
  intros Hreach.
  destruct (reachable_seated _ _ _ _ _ _ Hreach) as [Hs HF].
  destruct Hreach as (s1 & tr & Hseed & Htr).
  destruct (Simulation_init_lengths mu horizon lambdas g) as [Hlen Hclen].
  split; [|split; [|split]].
  - rewrite (turns_T _ _ _ _ Htr). by rewrite (seed_T _ _ _ _ Hseed).
  - by rewrite <- (Forall2_length _ _ _ HF).
  - rewrite <- Hclen. clear Hs HF.
    assert (length (chopsticks s1)
            = length (chopsticks (Simulation_init mu horizon lambdas g))) as H1.
    { unfold seeded in Hseed. revert Hseed.
      generalize (seq 0 (length (philosophers (Simulation_init mu horizon lambdas g)))).
      generalize (Simulation_init mu horizon lambdas g).
      intros s0 refs. revert s0.
      induction refs as [|i refs IH]; intros s0; cbn -[heapq.heappush].
      - by intros [= <-].
      - destruct (request expovariate i 0 s0) as [[ev sa]|] eqn:Hreq; [|done].
        cbn -[heapq.heappush]. intros Hs%IH. rewrite Hs. cbn.
        by apply request_frame in Hreq as (_ & _ & _ & _ & ->). }
    rewrite <- H1. clear Hseed H1.
    induction Htr as [|sa ev sb tr sc Hit _ IH]; [done|].
    rewrite IH. by apply iteration_frame in Hit as (_ & _ & -> & _).
  - intros i p Hp. by eapply seat_of_init.
Qed.
End Frame.

Lemma run_errors_witness :
  (ZeroDivisionError = IndexError /\ [1; 0; 1]%Q = []) \/
  (ZeroDivisionError = ZeroDivisionError /\ [1; 0; 1]%Q <> [] /\
   ((1 == 0)%Q \/ Exists (fun x => (x == 0)%Q) [1; 0; 1]%Q)).
Proof.
  apply (run_errors scripted 1 1 [1; 0; 1]%Q ([] : script) 3 ZeroDivisionError).
  reflexivity.
Defined.

Lemma parameters_kept_witness :
  exists s,
    reachable scripted
      (Simulation_init 1 7 [1; 2; 3]%Q
         ([(5%N, 1%positive); (1%N, 2%positive); (3%N, 1%positive)] : script)) s /\
    T s = 7%Q.
Proof.
  eexists. split.
  - eexists _, []. split; [vm_compute; reflexivity|constructor].
  - eapply (parameters_kept scripted 1 7 [1; 2; 3]%Q
              ([(5%N, 1%positive); (1%N, 2%positive); (3%N, 1%positive)] : script)).
    eexists _, []. split; [vm_compute; reflexivity|constructor].
Defined.

(** ** The order of dispatch, and who can eat *)

Section Order.
Context {rng : Type} (expovariate : Q -> rng -> Q * rng).
Implicit Types s : Simulation (rng := rng).

Lemma seed_heap refs t s s' :
  heapq.is_heap Event_lt (events s) ->
  seed expovariate refs t s = Ok s' ->
  heapq.is_heap Event_lt (events s').
Proof.
  revert s. induction refs as [|i refs IH]; intros s Hheap; cbn -[heapq.heappush].
  - by intros [= <-].
  - destruct (request expovariate i t s) as [[ev s1]|] eqn:Hreq; [|done].
    cbn -[heapq.heappush]. apply IH. cbn -[heapq.heappush].
    apply request_frame in Hreq as (_ & -> & _).
    by apply events_heappush_heap.
Qed.

Lemma turn_heap s event s' :
  heapq.is_heap Event_lt (events s) ->
  iteration expovariate s = Ok (event, s') ->
  heapq.is_heap Event_lt (events s') /\ event ∈ events s /\
  forall x, x ∈ events s -> (time event <= time x)%Q.
Proof.
  intros Hheap (heap & next & s1 & Hpop & _ & -> & _ & _)%iteration_Ok_inv.
  split; [|split].
  - cbn -[heapq.heappush].
    eapply events_heappush_heap, events_heappop_heap; eauto.
  - rewrite <- (heapq_facts.heappop_Permutation _ _ _ _ Hpop). left.
  - intros x Hx. eapply events_heappop_min; eauto.
Qed.

Lemma reachable_heap mu horizon lambdas (g : rng) s :
  reachable expovariate (Simulation_init mu horizon lambdas g) s ->
  heapq.is_heap Event_lt (events s).
Proof.
  intros (s1 & tr & Hseed & Htr).
  assert (heapq.is_heap Event_lt (events s1)) as H1.
  { eapply seed_heap; [|exact Hseed]. intros i Hi. cbn in Hi. lia. }
  clear Hseed. induction Htr as [|sa ev sb tr sc Hit _ IH]; [done|].
  apply IH. by eapply turn_heap.
Qed.

(** X5. Whatever the rates and the draws, every turn of the loop
    dispatches an event of the queue that is earliest: no queued event
    has a smaller time. *)
Theorem earliest_first mu horizon lambdas (g : rng) s event s' :
  reachable expovariate (Simulation_init mu horizon lambdas g) s ->
  iteration expovariate s = Ok (event, s') ->
  event ∈ events s /\ forall x, x ∈ events s -> (time event <= time x)%Q.
Proof.
  intros Hreach Hit.
  eapply (turn_heap s event s'); [by eapply reachable_heap|done].
Qed.

(** X6. Around a table of at least two, an actor and its right-hand
    neighbour never eat at the same time. *)
Theorem neighbours_never_eat_together mu horizon lambdas (g : rng) s i :
  reachable expovariate (Simulation_init mu horizon lambdas g) s ->
  2 <= length lambdas -> i < length lambdas ->
  eating s i = true -> eating s ((i + 1) mod length lambdas) = false.
Proof.
  intros Hreach HN Hi Hei.
  destruct (reachable_seated _ _ _ _ _ _ Hreach) as [((Hw & Hf & Hx) & _ & _) HF].
  set (j := (i + 1) mod length lambdas).
  assert (j < length lambdas) as Hj by (apply Nat.mod_upper_bound; lia).
  assert (j <> i) as Hne.
  { subst j. destruct (decide (i + 1 < length lambdas)).
    - rewrite Nat.mod_small by done. lia.
    - replace (i + 1) with (length lambdas) by lia.
      rewrite Nat.Div0.mod_same. lia. }
  pose proof (Forall2_length _ _ _ HF) as Hlen.
  destruct (Simulation_init_lengths mu horizon lambdas g) as [Hlen0 _].
  destruct (lookup_lt_is_Some_2 (philosophers s) i) as [p Hp]; [lia|].
  destruct (lookup_lt_is_Some_2 (philosophers s) j) as [q Hq]; [lia|].
  destruct (seat_of_init _ _ _ _ _ _ _ HF Hp) as (_ & _ & _ & Hr).
  destruct (seat_of_init _ _ _ _ _ _ _ HF Hq) as (_ & _ & Hl & _).
  destruct (eating s j) eqn:Hej; [|done].
  exfalso. apply Hne. symmetry. apply (Hx i j j).
  - split; [done|]. exists p. auto.
  - split; [done|]. exists q. auto.
Qed.

(** X7. A request dispatched by the loop fails (the actor stays waiting)
    exactly when another actor holds one of its two chopsticks: there is
    no failure without a neighbour that eats, and no success beside one. *)
Theorem request_fails_iff_neighbour_holds mu horizon lambdas (g : rng) s event s' :
  reachable expovariate (Simulation_init mu horizon lambdas g) s ->
  iteration expovariate s = Ok (event, s') ->
  type event = REQUEST ->
  eating s' (philosopher event) = false <->
  exists j c, j <> philosopher event /\ holds s j c /\
              adjacent s (philosopher event) c.
Proof.
  intros Hreach Hit Hty.
  destruct (reachable_seated _ _ _ _ _ _ Hreach) as [Hs _].
  pose proof Hs as ((Hw & Hf & _) & _ & _).
  destruct (turn_cases _ _ _ _ _ Hs Hit)
    as (p & l & r & heap & next & s1 & _ & Hp & Hl & Hr & _ & _ & _ &
        Hnext & Hprev & Hh).
  rewrite Hty in Hh, Hprev.
  assert (eating s (philosopher event) = false) as Hwaiting.
  { destruct (eating s (philosopher event)); [|done].
    by destruct Hprev as [Hprev _]; specialize (Hprev eq_refl). }
  destruct (Hw _ p Hp) as (l' & r' & Hl' & Hr' & Hll & Hrl).
  rewrite Hl in Hl'. rewrite Hr in Hr'.
  injection Hl' as <-. injection Hr' as <-.
  apply (request_cases _ (set_events heap s) _ _ p l r) in Hh; try done.
  cbn in Hh.
  destruct Hh as [(Hfree & _ & -> & _) | (Hfree & _ & -> & _)]; cbn in Hnext.
  - split.
    + intros He. destruct Hnext as [_ Hnext]. rewrite Hnext in He; done.
    + intros (j & c & _ & Hh & Hadj). exfalso.
      apply andb_true_iff in Hfree as [Hfl Hfr].
      apply (adjacent_wired s _ p l r) in Hadj; [|done..].
      assert (is_free (chopsticks s !!! c) = false) as Hc.
      { apply Hf; [destruct Hadj as [-> | ->]; done|eauto]. }
      destruct Hadj as [-> | ->]; congruence.
  - split.
    + intros _.
      assert (exists c, (c = l \/ c = r) /\ is_free (chopsticks s !!! c) = false)
        as (c & Hc & Htaken).
      { apply andb_false_iff in Hfree as [H | H]; eauto. }
      assert (c < length (chopsticks s)) as Hclt.
      { destruct Hc as [-> | ->]; done. }
      apply (Hf c Hclt) in Htaken as [j Hj].
      exists j, c. split; [|split; [done|]].
      * intros ->. destruct Hj as [He _]. congruence.
      * by apply (adjacent_wired s _ p l r).
    + intros _. destruct (eating _ _); [|done].
      by destruct Hnext as [Hnext _]; specialize (Hnext eq_refl).
Qed.
End Order.

Lemma earliest_first_witness :
  exists s event s',
    reachable scripted
      (Simulation_init 1 1 [1; 1; 1]%Q
         ([(5%N, 1%positive); (1%N, 2%positive); (3%N, 1%positive);
           (0%N, 1%positive)] : script)) s /\
    iteration scripted s = Ok (event, s') /\ event ∈ events s.
Proof.
  assert (exists s event s',
            seeded scripted
              (Simulation_init 1 1 [1; 1; 1]%Q
                 ([(5%N, 1%positive); (1%N, 2%positive); (3%N, 1%positive);
                   (0%N, 1%positive)] : script)) s /\
            iteration scripted s = Ok (event, s'))
    as (s & event & s' & Hseed & Hit).
  { eexists _, _, _. split; vm_compute; reflexivity. }
  assert (reachable scripted
            (Simulation_init 1 1 [1; 1; 1]%Q
               ([(5%N, 1%positive); (1%N, 2%positive); (3%N, 1%positive);
                 (0%N, 1%positive)] : script)) s) as Hreach.
  { exists s, []. split; [exact Hseed|constructor]. }
  exists s, event, s'. split; [exact Hreach|]. split; [exact Hit|].
  eapply (earliest_first scripted); [exact Hreach|exact Hit].
Defined.

Lemma neighbours_never_eat_together_witness :
  exists s,
    reachable scripted
      (Simulation_init 1 1 [1; 1; 1]%Q
         ([(5%N, 1%positive); (1%N, 2%positive); (3%N, 1%positive)] : script)) s /\
    eating s 0 = true /\ eating s 1 = false.
Proof.
  eexists. split.
  - eexists _, []. split; [vm_compute; reflexivity|constructor].
  - split; [reflexivity|].
    apply (neighbours_never_eat_together scripted 1 1 [1; 1; 1]%Q
             ([(5%N, 1%positive); (1%N, 2%positive); (3%N, 1%positive)] : script)
             _ 0); [|cbn; lia|cbn; lia|reflexivity].
    eexists _, []. split; [vm_compute; reflexivity|constructor].
Defined.

Lemma request_fails_iff_neighbour_holds_witness :
  exists s event s',
    reachable scripted
      (Simulation_init 1 1 [1; 1; 1]%Q
         ([(5%N, 1%positive); (1%N, 2%positive); (3%N, 1%positive);
           (0%N, 1%positive)] : script)) s /\
    iteration scripted s = Ok (event, s') /\
    (eating s' (philosopher event) = false <->
     exists j c, j <> philosopher event /\ holds s j c /\
                 adjacent s (philosopher event) c).
Proof.
  assert (exists s event s',
            seeded scripted
              (Simulation_init 1 1 [1; 1; 1]%Q
                 ([(5%N, 1%positive); (1%N, 2%positive); (3%N, 1%positive);
                   (0%N, 1%positive)] : script)) s /\
            iteration scripted s = Ok (event, s') /\ type event = REQUEST)
    as (s & event & s' & Hseed & Hit & Hty).
  { eexists _, _, _. split; [vm_compute; reflexivity|].
    split; [vm_compute; reflexivity|reflexivity]. }
  assert (reachable scripted
            (Simulation_init 1 1 [1; 1; 1]%Q
               ([(5%N, 1%positive); (1%N, 2%positive); (3%N, 1%positive);
                 (0%N, 1%positive)] : script)) s) as Hreach.
  { exists s, []. split; [exact Hseed|constructor]. }
  exists s, event, s'. split; [exact Hreach|]. split; [exact Hit|].
  exact (request_fails_iff_neighbour_holds scripted _ _ _ _ s event s'
           Hreach Hit Hty).
Defined.

(** ** Actors that are not wired, and the command line *)

Section Unwired.
Context {rng : Type} (expovariate : Q -> rng -> Q * rng).
Implicit Types s : Simulation (rng := rng).

(** X8. A philosopher as [Philosopher.__init__] leaves it (no chopstick
    yet) cannot be used: [request] and [finish] raise [AttributeError].
    With only the right chopstick missing, [finish] raises, and [request]
    raises when the left chopstick is free; when the left chopstick is
    taken, the [and] never looks at the right one and [request] returns a
    retry. *)
Theorem unwired_raises s self t p :
  philosophers s !! self = Some p ->
  (left_chopstick p = None ->
   request expovariate self t s = Raise AttributeError /\
   finish expovariate self t s = Raise AttributeError) /\
  (forall l, left_chopstick p = Some l -> right_chopstick p = None ->
     finish expovariate self t s = Raise AttributeError /\
     (is_free (chopsticks s !!! l) = true ->
      request expovariate self t s = Raise AttributeError) /\
     (is_free (chopsticks s !!! l) = false ->
      Qeq_bool (lambda_i p) 0 = false ->
      exists ev s', request expovariate self t s = Ok (ev, s') /\
                    type ev = REQUEST /\ philosopher ev = self)).
Proof.
  intros Hp. pose proof (lookup_lt_Some _ _ _ Hp) as Hlt.
  split.
  - intros Hl. split.
    + unfold request, update_philosopher. cbn.
      rewrite !(lookup_total_of_lookup _ _ _ Hp).
      rewrite ?list_lookup_total_insert_eq by done. cbn. by rewrite Hl.
    + unfold finish. rewrite !(lookup_total_of_lookup _ _ _ Hp). by rewrite Hl.
  - intros l Hl Hr. split; [|split].
    + unfold finish. rewrite !(lookup_total_of_lookup _ _ _ Hp).
      rewrite Hl, Hr. done.
    + intros Hfree. unfold request, update_philosopher. cbn.
      rewrite !(lookup_total_of_lookup _ _ _ Hp).
      rewrite ?list_lookup_total_insert_eq by done. cbn.
      rewrite Hl, Hr. cbn. by rewrite Hfree.
    + intros Hfree Hrate. unfold request, update_philosopher. cbn.
      rewrite !(lookup_total_of_lookup _ _ _ Hp).
      rewrite ?list_lookup_total_insert_eq by done. cbn.
      rewrite Hl, Hr. cbn. rewrite Hfree. cbn. unfold draw. cbn.
      rewrite Hrate. destruct (expovariate (lambda_i p) (gen s)) as [d g].
      cbn. eauto.
Qed.
End Unwired.

Lemma unwired_raises_witness :
  request scripted 0 0
    {| events := []; T := 1; philosophers := [Philosopher_init 1 1];
       chopsticks := []; gen := ([] : script) |} = Raise AttributeError.
Proof.
  apply (unwired_raises scripted
           {| events := []; T := 1; philosophers := [Philosopher_init 1 1];
              chopsticks := []; gen := ([] : script) |} 0 0
           (Philosopher_init 1 1)); reflexivity.
Defined.

Section CommandLine.
Import toplevel.

(** X2. When [-lambdas] is given and non-empty, [-n] plays no part: the
    checks answer the same whatever [-n] is, and a namespace that passes
    has [n] equal to the number of lambdas. *)
Theorem validate_ignores_n (args : Namespace) (n' : Z) :
  truthy_list (lambdas args) = true ->
  validate args =
    validate {| n := n'; T := T args; mi := mi args; lambdas := lambdas args |} /\
  forall args', validate args = Ok args' ->
    n args' = Z.of_nat (length (default [] (lambdas args))).
Proof.
  intros Hl. split.
  - unfold validate, override_n. cbn. by rewrite Hl.
  - intros args' ->%validate_Ok_inv. unfold override_n. by rewrite Hl.
Qed.
End CommandLine.

Lemma validate_ignores_n_witness :
  toplevel.validate
    {| toplevel.n := 4; toplevel.T := 500; toplevel.mi := None;
       toplevel.lambdas := Some [1; 1; 1]%Q |}
  = toplevel.validate
      {| toplevel.n := 3; toplevel.T := 500; toplevel.mi := None;
         toplevel.lambdas := Some [1; 1; 1]%Q |}.
Proof.
  apply (validate_ignores_n
           {| toplevel.n := 4; toplevel.T := 500; toplevel.mi := None;
              toplevel.lambdas := Some [1; 1; 1]%Q |} 3).
  reflexivity.
Defined.

(** ** Requests, failures and meals *)

Section Accounting.
Context {rng : Type} (expovariate : Q -> rng -> Q * rng).
Implicit Types s : Simulation (rng := rng).
Implicit Types tr : list (Event * Simulation (rng := rng)).

Lemma meals_snoc i tr event s :
  meals i (tr ++ [(event, s)]) =
    meals i tr +
      (if decide (philosopher event = i /\ type event = FINISH) then 1 else 0).
Proof.
  unfold meals. rewrite busy_intervals_snoc, length_app.
  by destruct (decide _).
Qed.

(** An actor that is not seeded yet has no event in the queue. *)
Lemma waiting_unseated k s i : seated k s -> k <= i -> eating s i = false.
Proof.
  intros (_ & Hpend & _) Hki.
  destruct (eating s i) eqn:E; [|done].
  apply eating_true in E as (e & Hin & <- & _).
  assert (philosopher e ∈ seq 0 k) as Hin'.
  { rewrite <- Hpend. by apply list_elem_of_fmap_2. }
  apply elem_of_seq in Hin'. lia.
Qed.

(** One call of [request] on a waiting actor: its log grows by one
    entry, which is a failure or the start of a meal; nobody else's
    books change. *)
Lemma request_books s self t p l r ev s1 s2 :
  philosophers s !! self = Some p ->
  left_chopstick p = Some l -> right_chopstick p = Some r ->
  eating s self = false ->
  request expovariate self t s = Ok (ev, s1) ->
  events s2 ≡ₚ ev :: events s -> philosophers s2 = philosophers s1 ->
  (forall j, j <> self -> eating s2 j = eating s j) /\
  exists p', philosophers s2 = <[self := p']> (philosophers s) /\
    length (requests p') + failed_attempts p =
      length (requests p) + failed_attempts p' +
        (if eating s2 self then 1 else 0).
Proof.
  intros Hp Hl Hr He Hreq Hperm Hps.
  pose proof (request_frame _ _ _ _ _ _ Hreq) as (_ & _ & Hself & _).
  split.
  - intros j Hj. apply eq_true_iff_eq.
    rewrite (eating_pushed _ _ _ j Hperm), Hself. intuition congruence.
  - destruct (request_cases expovariate _ _ _ _ _ _ _ _ Hp Hl Hr Hreq)
      as [(_ & _ & Hev & Hps1 & _) | (_ & _ & Hev & Hps1 & _)].
    + eexists. split; [rewrite Hps; exact Hps1|]. cbn.
      rewrite length_app. cbn.
      assert (eating s2 self = true) as ->.
      { apply (eating_pushed _ _ _ _ Hperm). left. by rewrite Hev. }
      lia.
    + eexists. split; [rewrite Hps; exact Hps1|]. cbn.
      rewrite length_app. cbn.
      assert (eating s2 self = false) as ->.
      { destruct (eating s2 self) eqn:E; [|done].
        apply (eating_pushed _ _ _ _ Hperm) in E as [[_ Hty] | E];
          [by rewrite Hev in Hty | congruence]. }
      lia.
Qed.

(** The books after the seeding loop: no meal is over yet. *)
Lemma seed_books m k t s s' :
  seated k s -> k + m <= length (philosophers s) ->
  (forall i p, philosophers s !! i = Some p ->
     length (requests p) = failed_attempts p + (if eating s i then 1 else 0)) ->
  seed expovariate (seq k m) t s = Ok s' ->
  forall i p, philosophers s' !! i = Some p ->
    length (requests p) = failed_attempts p + (if eating s' i then 1 else 0).
Proof.
  revert k s. induction m as [|m IH]; intros k s Hs Hkm Hbooks.
  - cbn. by intros [= <-].
  - cbn [seq seed].
    destruct (request expovariate k t s) as [[ev s1]|] eqn:Hreq; [|done].
    cbn -[heapq.heappush]. intros Hseed.
    set (s2 := set_events (heapq.heappush Event_lt (events s1) ev) s1) in *.
    assert (seed expovariate (seq k 1) t s = Ok s2) as Hone.
    { cbn [seq seed]. by rewrite Hreq. }
    apply seed_seated in Hone as [Hs2 _]; [|done|lia].
    destruct (lookup_lt_is_Some_2 (philosophers s) k) as [p Hp]; [lia|].
    pose proof Hs as ((Hw & _) & _ & _).
    destruct (Hw k p Hp) as (l & r & Hl & Hr & _).
    pose proof (request_frame _ _ _ _ _ _ Hreq) as (_ & Hev & _ & Hlen & _).
    destruct (request_books s k t p l r ev s1 s2) as (Hothers & p' & Hps & Hbal);
      try done.
    { by eapply waiting_unseated. }
    { subst s2. cbn -[heapq.heappush].
      by rewrite heapq_facts.heappush_Permutation, Hev. }
    replace (k + 1) with (S k) in Hs2 by lia.
    apply (IH (S k) s2 Hs2); [subst s2; cbn; lia| |done].
    intros i q Hq. rewrite Hps in Hq.
    apply list_lookup_insert_Some in Hq as [(<- & <- & _) | [Hne Hq]].
    + specialize (Hbooks _ _ Hp).
      rewrite (waiting_unseated k s k) in Hbooks by done. lia.
    + rewrite Hothers by done. by apply Hbooks.
Qed.

(** X9. Every call of [request] is accounted for: at each head of the
    loop, the length of an actor's request log is the number of its
    failed attempts, plus the number of meals it has finished, plus one
    if it is eating. No assumption on the rates or on the draws. *)
Theorem attempts_accounted mu horizon lambdas (g : rng) s1 tr s :
  seeded expovariate (Simulation_init mu horizon lambdas g) s1 ->
  turns expovariate s1 tr s ->
  forall i p, philosophers s !! i = Some p ->
    length (requests p) =
      failed_attempts p + meals i tr + (if eating s i then 1 else 0).
Proof.
  intros Hseed Htr.
  destruct (Simulation_init_lengths mu horizon lambdas g) as [Hlen _].
  pose proof Hseed as Hseed'. unfold seeded in Hseed'. rewrite Hlen in Hseed'.
  pose proof Hseed' as Hseat.
  apply seed_seated in Hseat as [Hs1 _]; [|apply init_seated|rewrite Hlen; lia].
  cbn in Hs1.
  revert tr s Htr.
  apply (turns_ind_r expovariate s1
           (fun tr s => forall i p, philosophers s !! i = Some p ->
              length (requests p) =
                failed_attempts p + meals i tr + (if eating s i then 1 else 0))).
  - intros i p Hp. unfold meals. cbn. rewrite Nat.add_0_r.
    revert i p Hp. eapply seed_books; [apply init_seated| |
      |exact Hseed']; [rewrite Hlen; lia|].
    intros i p Hp. rewrite Simulation_init_philosophers in Hp.
    destruct (lambdas !! i); [|done]. by injection Hp as <-.
  - intros tr sa event sb Hpre IH Hit.
    destruct (turns_seated _ _ _ _ _ Hs1 Hpre) as [Hs _].
    destruct (turn_cases expovariate _ _ _ _ Hs Hit)
      as (p & l & r & heap & next & sc & _ & Hp & Hl & Hr & _ & -> &
          Hothers & Hnext & Hprev & Hh).
    intros i q Hq. rewrite meals_snoc.
    specialize (IH _ _ Hp) as IHp.
    destruct (type event) eqn:Hty.
    + assert (eating sa (philosopher event) = false) as Hwaiting.
      { destruct (eating sa (philosopher event)); [|done].
        by destruct Hprev as [Hprev _]; specialize (Hprev eq_refl). }
      rewrite Hwaiting in IHp.
      rewrite decide_False by (intros [_ [=]]).
      apply (request_cases expovariate (set_events heap sa) _ _ p l r) in Hh;
        try done.
      cbn -[heapq.heappush] in Hq.
      destruct Hh as [(_ & _ & Hev & Hps & _) | (_ & _ & Hev & Hps & _)];
        rewrite Hps in Hq; cbn in Hq;
        apply list_lookup_insert_Some in Hq as [(<- & <- & _) | [Hne Hq]].
      * assert (eating (set_events (heapq.heappush Event_lt heap next) sc)
                  (philosopher event) = true) as ->.
        { apply Hnext. by rewrite Hev. }
        cbn. rewrite length_app. cbn. lia.
      * rewrite Hothers by done. rewrite (IH _ _ Hq). lia.
      * assert (eating (set_events (heapq.heappush Event_lt heap next) sc)
                  (philosopher event) = false) as ->.
        { apply not_true_is_false. intros E.
          apply Hnext in E. by rewrite Hev in E. }
        cbn. rewrite length_app. cbn. lia.
      * rewrite Hothers by done. rewrite (IH _ _ Hq). lia.
    + assert (eating sa (philosopher event) = true) as Heating.
      { by apply Hprev. }
      rewrite Heating in IHp.
      apply (finish_cases expovariate (set_events heap sa) _ _ p l r) in Hh;
        try done.
      destruct Hh as (_ & Hev & Hps & _).
      cbn -[heapq.heappush] in Hq. rewrite Hps in Hq. cbn in Hq.
      apply list_lookup_insert_Some in Hq as [(<- & <- & _) | [Hne Hq]].
      * rewrite decide_True by done.
        assert (eating (set_events (heapq.heappush Event_lt heap next) sc)
                  (philosopher event) = false) as ->.
        { apply not_true_is_false. intros E.
          apply Hnext in E. by rewrite Hev in E. }
        cbn. lia.
      * rewrite decide_False by (intros [? _]; congruence).
        rewrite Hothers by done. rewrite (IH _ _ Hq). lia.
Qed.
End Accounting.

Lemma attempts_accounted_witness :
  exists s1 event s,
    seeded scripted
      (Simulation_init 1 1 [1; 1; 1]%Q
         ([(5%N, 1%positive); (1%N, 2%positive); (3%N, 1%positive);
           (0%N, 1%positive)] : script)) s1 /\
    turns scripted s1 [(event, s)] s /\
    forall i p, philosophers s !! i = Some p ->
      length (requests p) =
        failed_attempts p + meals i [(event, s)] + (if eating s i then 1 else 0).
Proof.
  assert (exists s1 event s,
            seeded scripted
              (Simulation_init 1 1 [1; 1; 1]%Q
                 ([(5%N, 1%positive); (1%N, 2%positive); (3%N, 1%positive);
                   (0%N, 1%positive)] : script)) s1 /\
            iteration scripted s1 = Ok (event, s))
    as (s1 & event & s & Hseed & Hit).
  { eexists _, _, _. split; vm_compute; reflexivity. }
  assert (turns scripted s1 [(event, s)] s) as Htr.
  { econstructor; [exact Hit|constructor]. }
  exists s1, event, s. split; [exact Hseed|]. split; [exact Htr|].
  exact (attempts_accounted scripted _ _ _ _ s1 [(event, s)] s Hseed Htr).
Defined.

(** ** The eating time of each actor *)

Section Busy.
Context {rng : Type} (expovariate : Q -> rng -> Q * rng).
Hypothesis expovariate_nonneg :
  forall rate g, (0 < rate)%Q -> (0 <= (expovariate rate g).1)%Q.
Implicit Types s : Simulation (rng := rng).
Implicit Types tr : list (Event * Simulation (rng := rng)).

(** Intervals that follow one another between [a] and [c] are no longer
    in total than [c - a]. *)
Lemma chain_total_bound l a c :
  chain l ->
  Forall (fun x => (a <= x.1)%Q) l -> Forall (fun x => (x.2 <= c)%Q) l ->
  (a <= c)%Q ->
  (0 <= total_length l)%Q /\ (total_length l <= c - a)%Q.
Proof.
  revert a. induction l as [|x l IH]; intros a [Hs Hw] Ha Hc Hac.
  - cbn. split; lra.
  - apply Forall_cons in Ha as [Hax Ha]. apply Forall_cons in Hc as [Hxc Hc].
    apply Forall_cons in Hw as [Hx Hw].
    apply StronglySorted_inv in Hs as [Hs Hnext].
    destruct (IH x.2) as [H0 H1]; [by split|exact Hnext|done|done|].
    cbn. fold (total_length l). split; lra.
Qed.

(** No meal of a run starts before time zero. *)
Lemma busy_starts_nonneg mu horizon lambdas (g : rng) s1 tr s i :
  (0 < mu)%Q -> Forall (fun x => (0 < x)%Q) lambdas ->
  seeded expovariate (Simulation_init mu horizon lambdas g) s1 ->
  turns expovariate s1 tr s ->
  Forall (fun x => (0 <= x.1)%Q) (busy_intervals i tr).
Proof.
  intros Hmu Hla Hseed. revert tr s.
  apply (turns_ind_r expovariate s1
           (fun tr s => Forall (fun x => (0 <= x.1)%Q) (busy_intervals i tr))).
  - constructor.
  - intros tr sa event sb Hpre IH Hit.
    rewrite busy_intervals_snoc. apply Forall_app. split; [done|].
    destruct (decide _) as [[Hi _]|]; [|constructor].
    apply Forall_singleton. cbn.
    pose proof (turns_snoc _ _ _ _ _ _ Hpre Hit) as Htr'.
    destruct (history_times expovariate expovariate_nonneg
                _ _ _ _ _ _ _ Hmu Hla Hseed Htr')
      as (_ & _ & Hlen & (_ & _ & Hstart) & _).
    destruct (history_times expovariate expovariate_nonneg
                _ _ _ _ _ _ _ Hmu Hla Hseed Hpre) as (Hsa & _).
    destruct (turn_cases expovariate _ _ _ _ Hsa Hit)
      as (_ & _ & _ & _ & _ & _ & Hlt & _).
    apply Hstart. apply list_elem_of_lookup_total_2. rewrite Hlen, <- Hi.
    exact Hlt.
Qed.

(** X10. With rates above zero, at every head of the loop each actor's
    [eating_time] is at least zero and at most the clock: an actor
    cannot have eaten for longer than the simulation has run. *)
Theorem eating_time_bounds mu horizon lambdas (g : rng) s1 tr s :
  (0 < mu)%Q -> Forall (fun x => (0 < x)%Q) lambdas ->
  seeded expovariate (Simulation_init mu horizon lambdas g) s1 ->
  turns expovariate s1 tr s ->
  forall i p, philosophers s !! i = Some p ->
    (0 <= eating_time p)%Q /\ (eating_time p <= last_clock 0 tr)%Q.
Proof.
  intros Hmu Hla Hseed Htr i p Hp.
  destruct (history_busy expovariate expovariate_nonneg
              _ _ _ _ _ _ _ Hmu Hla Hseed Htr) as [_ Hbusy].
  destruct (Hbusy i p Hp) as (Hchain & Hend & _ & Hsum).
  destruct (history_times expovariate expovariate_nonneg
              _ _ _ _ _ _ _ Hmu Hla Hseed Htr) as (_ & _ & _ & _ & Hclock & _).
  pose proof (busy_starts_nonneg _ _ _ _ _ _ _ i Hmu Hla Hseed Htr) as Hstarts.
  destruct (chain_total_bound _ 0 (last_clock 0 tr) Hchain Hstarts Hend Hclock)
    as [H0 H1].
  rewrite Hsum. split; lra.
Qed.
End Busy.

Lemma eating_time_bounds_witness :
  exists s1 event s,
    seeded scripted
      (Simulation_init 1 1 [1; 1; 1]%Q
         ([(5%N, 1%positive); (7%N, 1%positive); (8%N, 1%positive)] : script)) s1 /\
    turns scripted s1 [(event, s)] s /\
    forall i p, philosophers s !! i = Some p ->
      (0 <= eating_time p)%Q /\ (eating_time p <= last_clock 0 [(event, s)])%Q.
Proof.
  assert (exists s1 event s,
            seeded scripted
              (Simulation_init 1 1 [1; 1; 1]%Q
                 ([(5%N, 1%positive); (7%N, 1%positive); (8%N, 1%positive)]
                  : script)) s1 /\
            iteration scripted s1 = Ok (event, s))
    as (s1 & event & s & Hseed & Hit).
  { eexists _, _, _. split; vm_compute; reflexivity. }
  assert (turns scripted s1 [(event, s)] s) as Htr.
  { econstructor; [exact Hit|constructor]. }
  exists s1, event, s. split; [exact Hseed|]. split; [exact Htr|].
  apply (eating_time_bounds scripted scripted_nonneg 1 1 [1; 1; 1]%Q
           ([(5%N, 1%positive); (7%N, 1%positive); (8%N, 1%positive)] : script)
           s1 [(event, s)] s);
    [reflexivity | repeat constructor | exact Hseed | exact Htr].
Defined.

(** ** The module-level [run] *)

Section ModuleRun.
Context {rng : Type} (expovariate : Q -> rng -> Q * rng).
Context (uniform_round : rng -> Q * rng).
Implicit Types s : Simulation (rng := rng).

Lemma length_uniform_list n (g : rng) :
  length (toplevel.uniform_list uniform_round n g).1 = n.
Proof.
  revert g. induction n as [|n IH]; intros g; cbn; [done|].
  destruct (uniform_round g) as [x g1]. specialize (IH g1).
  destruct (toplevel.uniform_list uniform_round n g1) as [xs g2].
  cbn in *. by rewrite IH.
Qed.

(** What [Simulation.run] leaves when it returns: the queue is empty,
    the horizon and the rates are those of [__init__]. *)
Lemma run_returns mu horizon lambdas (g : rng) fuel fin :
  run expovariate fuel (Simulation_init mu horizon lambdas g) = Some (Ok fin) ->
  events fin = [] /\ T fin = horizon /\
  Forall (fun p => mi p = mu) (philosophers fin) /\
  lambda_i <$> philosophers fin = lambdas.
Proof.
  intros (s1 & tr & s & Hseed & Htr & _ & ->)%run_history.
  assert (reachable expovariate (Simulation_init mu horizon lambdas g) s)
    as Hreach by (by exists s1, tr).
  destruct (reachable_seated _ _ _ _ _ _ Hreach) as [_ HF].
  destruct (Simulation_init_lengths mu horizon lambdas g) as [Hlen _].
  cbn. split; [done|]. split.
  { by rewrite (turns_T _ _ _ _ Htr), (seed_T _ _ _ _ _ Hseed). }
  split.
  - apply Forall_lookup. intros i p Hp.
    by destruct (seat_of_init _ _ _ _ _ _ _ HF Hp) as (? & _).
  - apply list_eq. intros i. rewrite list_lookup_fmap.
    destruct (philosophers s !! i) as [p|] eqn:Hp; cbn.
    + destruct (seat_of_init _ _ _ _ _ _ _ HF Hp) as (_ & Hl & _).
      by rewrite Hl.
    + symmetry. apply lookup_ge_None. apply lookup_ge_None in Hp.
      rewrite <- (Forall2_length _ _ _ HF), Hlen in Hp. done.
Qed.

(** X12. The module-level [run], when it returns: the simulation has an
    empty queue and the horizon [T]; all philosophers share one [mi],
    the supplied one if there is one; their [lambda_i] are the supplied
    lambdas, in order, and without supplied lambdas there are [n]
    philosophers (none when [n] is negative). *)
Theorem module_run_returns fuel (n horizon : Z) (mu : option Q)
    (rates : option (list Q)) (g : rng) fin :
  toplevel.run expovariate uniform_round fuel n horizon mu rates g
    = Some (Ok fin) ->
  events fin = [] /\ T fin = inject_Z horizon /\
  (exists m, Forall (fun p => mi p = m) (philosophers fin) /\
             forall m', mu = Some m' -> m = m') /\
  match rates with
  | Some l => lambda_i <$> philosophers fin = l
  | None => length (philosophers fin) = Z.to_nat n
  end.
Proof.
  unfold toplevel.run, Simulation_run.
  destruct mu as [m|]; [|destruct (uniform_round g) as [m g1]].
  - destruct rates as [l|].
    + intros (He & HT & Hm & Hl)%run_returns.
      split; [done|]. split; [done|]. split; [|done].
      exists m. split; [done|]. by intros m' [= <-].
    + pose proof (length_uniform_list (Z.to_nat n) g) as Hlen.
      destruct (toplevel.uniform_list uniform_round (Z.to_nat n) g) as [l g2].
      intros (He & HT & Hm & Hl)%run_returns.
      split; [done|]. split; [done|]. split.
      * exists m. split; [done|]. by intros m' [= <-].
      * cbn in Hlen. by rewrite <- Hlen, <- Hl, length_fmap.
  - destruct rates as [l|].
    + intros (He & HT & Hm & Hl)%run_returns.
      split; [done|]. split; [done|]. split; [|done].
      exists m. split; [done|]. by intros m' [=].
    + pose proof (length_uniform_list (Z.to_nat n) g1) as Hlen.
      destruct (toplevel.uniform_list uniform_round (Z.to_nat n) g1) as [l g2].
      intros (He & HT & Hm & Hl)%run_returns.
      split; [done|]. split; [done|]. split.
      * exists m. split; [done|]. by intros m' [=].
      * cbn in Hlen. by rewrite <- Hlen, <- Hl, length_fmap.
Qed.
End ModuleRun.

Lemma module_run_returns_witness :
  exists fin,
    toplevel.run scripted (fun g => (1 # 2, g)) 1 3 1 None None
      ([(5%N, 1%positive); (7%N, 1%positive); (8%N, 1%positive)] : script)
      = Some (Ok fin) /\
    events fin = [] /\ length (philosophers fin) = 3.
Proof.
  assert (exists fin,
            toplevel.run scripted (fun g => (1 # 2, g)) 1 3 1 None None
              ([(5%N, 1%positive); (7%N, 1%positive); (8%N, 1%positive)] : script)
              = Some (Ok fin)) as [fin Hfin].
  { eexists. vm_compute. reflexivity. }
  exists fin. split; [exact Hfin|].
  destruct (module_run_returns scripted (fun g => (1 # 2, g)) 1 3 1 None None
              ([(5%N, 1%positive); (7%N, 1%positive); (8%N, 1%positive)] : script)
              fin Hfin) as (He & _ & _ & Hn).
  split; [exact He|exact Hn].
Defined.

(** ** [-lambdas] without values *)

(** X13. [-lambdas] given without values is an empty list, which is false
    as a truth value: lines 138 and 146 skip it, so the checks pass
    whenever [-n], [-T] and [-mi] pass, and leave the namespace as it
    is.  The module-level [run] then builds a table without
    philosophers, and the first [heappop] raises [IndexError]. *)
Theorem empty_lambdas_IndexError {rng : Type} (expovariate : Q -> rng -> Q * rng)
    (uniform_round : rng -> Q * rng) (args args' : toplevel.Namespace)
    (fuel : nat) (g : rng) :
  toplevel.lambdas args = Some [] ->
  toplevel.validate args = Ok args' ->
  args' = args /\
  toplevel.run expovariate uniform_round (S fuel)
    (toplevel.n args') (toplevel.T args') (toplevel.mi args')
    (toplevel.lambdas args') g = Some (Raise IndexError).
Proof.
  intros Hl Hv. pose proof (validate_Ok_inv _ _ Hv) as ->.
  assert (toplevel.override_n args = args) as Ho.
  { unfold toplevel.override_n. by rewrite Hl. }
  rewrite Ho. split; [done|].
  assert (Qltb 0 (inject_Z (toplevel.T args)) = true) as HT.
  { apply Qltb_true. revert Hv. unfold toplevel.validate. rewrite Ho.
    destruct (_ || _); [done|].
    destruct (toplevel.T args <? 1)%Z eqn:E; [done|]. intros _.
    apply Z.ltb_ge in E. unfold Qlt. cbn. lia. }
  unfold toplevel.run, Simulation_run. rewrite Hl.
  destruct (toplevel.mi args) as [m|]; [|destruct (uniform_round g) as [m g1]];
    unfold run; cbn; by rewrite HT.
Qed.

Lemma empty_lambdas_IndexError_witness :
  toplevel.run scripted (fun g => (1 # 2, g)) 1 5 500 (Some 1%Q) (Some [])
    ([] : script) = Some (Raise IndexError).
Proof.
  apply (empty_lambdas_IndexError scripted (fun g => (1 # 2, g))
           {| toplevel.n := 5; toplevel.T := 500; toplevel.mi := Some 1%Q;
              toplevel.lambdas := Some [] |}
           {| toplevel.n := 5; toplevel.T := 500; toplevel.mi := Some 1%Q;
              toplevel.lambdas := Some [] |} 0 ([] : script));
    reflexivity.
Defined.

(** ** Who eats first *)

Section Seeding.
Context {rng : Type} (expovariate : Q -> rng -> Q * rng).
Implicit Types s : Simulation (rng := rng).

Lemma even_step j : Nat.even (S j) = negb (Nat.even j).
Proof. by rewrite Nat.even_succ, <- Nat.negb_even. Qed.

(** While the actors below [k] are seeded and those of even index among
    them eat (the last of the table apart), the chopsticks taken are
    those of these actors. *)
Lemma seeding_taken mu horizon lambdas (g : rng) k s c :
  seated k s ->
  Forall2 same_seat
    (philosophers (Simulation_init mu horizon lambdas g)) (philosophers s) ->
  (forall i, eating s i = true <->
             i < k /\ Nat.even i = true /\ i + 1 < length lambdas) ->
  c < length lambdas ->
  is_free (chopsticks s !!! c) = false <->
  exists i, i < k /\ Nat.even i = true /\ i + 1 < length lambdas /\
            (c = i \/ c = i + 1).
Proof.
  intros ((Hw & Hf & _) & _ & _) HF Heat Hc.
  pose proof (Forall2_length _ _ _ HF) as Hlen.
  destruct (Simulation_init_lengths mu horizon lambdas g) as [Hlen0 _].
  assert (forall i p, philosophers s !! i = Some p -> i + 1 < length lambdas ->
            forall c', adjacent s i c' <-> c' = i \/ c' = i + 1) as Hadj.
  { intros i p Hp Hi c'.
    destruct (seat_of_init _ _ _ _ _ _ _ HF Hp) as (_ & _ & Hl & Hr).
    rewrite Nat.mod_small in Hr by done. by apply (adjacent_wired s i p). }
  assert (c < length (chopsticks s)) as Hclt.
  { destruct (lookup_lt_is_Some_2 (philosophers s) c) as [p Hp]; [lia|].
    destruct (seat_of_init _ _ _ _ _ _ _ HF Hp) as (_ & _ & Hl & _).
    destruct (Hw _ _ Hp) as (l & r & Hl' & _ & Hlt & _).
    rewrite Hl in Hl'. by injection Hl' as <-. }
  rewrite (Hf c Hclt). split.
  - intros (i & He & Ha). apply Heat in He as (Hik & Hev & Hi).
    pose proof Ha as (p & Hp & _). apply (Hadj i p Hp Hi) in Ha. eauto.
  - intros (i & Hik & Hev & Hi & Hside). exists i.
    split; [by apply Heat|].
    destruct (lookup_lt_is_Some_2 (philosophers s) i) as [p Hp]; [lia|].
    by apply (Hadj i p Hp Hi).
Qed.

Lemma seed_pattern mu horizon lambdas (g : rng) m k s s' :
  2 <= length lambdas ->
  seated k s ->
  Forall2 same_seat
    (philosophers (Simulation_init mu horizon lambdas g)) (philosophers s) ->
  (forall i, eating s i = true <->
             i < k /\ Nat.even i = true /\ i + 1 < length lambdas) ->
  (forall i p, philosophers s !! i = Some p ->
     failed_attempts p =
       if decide (i < k) then (if eating s i then 0 else 1) else 0) ->
  k + m <= length lambdas ->
  seed expovariate (seq k m) 0 s = Ok s' ->
  (forall i, eating s' i = true <->
             i < k + m /\ Nat.even i = true /\ i + 1 < length lambdas) /\
  (forall i p, philosophers s' !! i = Some p ->
     failed_attempts p =
       if decide (i < k + m) then (if eating s' i then 0 else 1) else 0).
Proof.
  intros HN. revert k s.
  induction m as [|m IH]; intros k s Hs HF Heat Hfail Hkm.
  - cbn. intros [= <-]. by rewrite Nat.add_0_r.
  - cbn [seq seed].
    destruct (request expovariate k 0 s) as [[ev s1]|] eqn:Hreq; [|done].
    cbn -[heapq.heappush]. intros Hseed.
    set (s2 := set_events (heapq.heappush Event_lt (events s1) ev) s1) in *.
    pose proof (Forall2_length _ _ _ HF) as Hlen.
    destruct (Simulation_init_lengths mu horizon lambdas g) as [Hlen0 _].
    assert (seed expovariate (seq k 1) 0 s = Ok s2) as Hone.
    { cbn [seq seed]. by rewrite Hreq. }
    apply seed_seated in Hone as [Hs2 HF2]; [|done|lia].
    replace (k + 1) with (S k) in Hs2 by lia.
    destruct (lookup_lt_is_Some_2 (philosophers s) k) as [p Hp]; [lia|].
    destruct (seat_of_init _ _ _ _ _ _ _ HF Hp) as (_ & _ & Hl & Hr).
    pose proof (request_frame _ _ _ _ _ _ Hreq) as (_ & Hev & Hself & _).
    assert (events s2 ≡ₚ ev :: events s) as Hev2.
    { subst s2. cbn -[heapq.heappush].
      by rewrite heapq_facts.heappush_Permutation, Hev. }
    assert (forall j, j <> k -> eating s2 j = eating s j) as Hothers.
    { intros j Hj. apply eq_true_iff_eq.
      rewrite (eating_pushed _ _ _ j Hev2), Hself. intuition congruence. }
    assert (eating s k = false) as Hwait.
    { apply not_true_is_false. intros E. apply Heat in E. lia. }
    assert (is_free (chopsticks s !!! k) = Nat.even k) as HL.
    { destruct (is_free (chopsticks s !!! k)) eqn:E.
      - destruct (Nat.even k) eqn:Ek; [done|]. exfalso.
        assert (is_free (chopsticks s !!! k) = false) as E'; [|congruence].
        apply (seeding_taken mu horizon lambdas g k s k Hs HF Heat); [lia|].
        destruct k as [|j]; [done|]. rewrite even_step in Ek.
        apply negb_false_iff in Ek.
        exists j. split; [lia|]. split; [done|]. split; lia.
      - apply (seeding_taken mu horizon lambdas g k s k Hs HF Heat) in E
          as (i & Hik & Hei & Hi & Hside); [|lia].
        destruct Hside as [->| ->]; [lia|].
        replace (i + 1) with (S i) by lia. by rewrite even_step, Hei. }
    assert (is_free (chopsticks s !!! ((k + 1) mod length lambdas))
            = bool_decide (k + 1 < length lambdas)) as HR.
    { destruct (decide (k + 1 < length lambdas)) as [Hlt|Hge].
      - rewrite bool_decide_eq_true_2 by done. rewrite Nat.mod_small by done.
        apply not_false_iff_true. intros E.
        apply (seeding_taken mu horizon lambdas g k s (k + 1) Hs HF Heat) in E
          as (i & Hik & _ & _ & Hside); lia.
      - rewrite bool_decide_eq_false_2 by done.
        replace (k + 1) with (length lambdas) by lia.
        rewrite Nat.Div0.mod_same.
        apply (seeding_taken mu horizon lambdas g k s 0 Hs HF Heat); [lia|].
        exists 0. split; [lia|]. split; [done|]. split; [lia|by left]. }
    assert ((eating s2 k = true <->
             Nat.even k = true /\ k + 1 < length lambdas) /\
            exists p', philosophers s2 = <[k := p']> (philosophers s) /\
                       failed_attempts p' = if eating s2 k then 0 else 1)
      as (Hk & p' & Hps & Hfp).
    { specialize (Hfail _ _ Hp). rewrite decide_False in Hfail by lia.
      destruct (request_cases expovariate _ _ _ _ _ _ _ _ Hp Hl Hr Hreq)
        as [(Hfree & _ & Hevt & Hps1 & _) | (Hfree & _ & Hevt & Hps1 & _)];
        rewrite HL, HR in Hfree.
      - apply andb_true_iff in Hfree as [Hek Hlt].
        apply bool_decide_eq_true in Hlt.
        assert (eating s2 k = true) as He2.
        { apply (eating_pushed _ _ _ _ Hev2). left. by rewrite Hevt. }
        rewrite He2. split; [done|]. eexists. split; [exact Hps1|]. done.
      - assert (eating s2 k = false) as He2.
        { apply not_true_is_false. intros E.
          apply (eating_pushed _ _ _ _ Hev2) in E as [[_ Hty] | E];
            [by rewrite Hevt in Hty | congruence]. }
        rewrite He2. split.
        + split; [done|]. intros [Hek Hlt].
          rewrite Hek, bool_decide_eq_true_2 in Hfree by done. done.
        + eexists. split; [exact Hps1|]. cbn. lia. }
    replace (k + S m) with (S k + m) by lia.
    apply (IH (S k) s2 Hs2); [by eapply same_seats_trans | | |lia|done].
    + intros i. destruct (decide (i = k)) as [->|Hne].
      * rewrite Hk. split; [intros [? ?]; split; [lia|done]|tauto].
      * rewrite Hothers by done. rewrite Heat.
        split; intros (? & ? & ?); (split; [lia|done]).
    + intros i q Hq. rewrite Hps in Hq.
      apply list_lookup_insert_Some in Hq as [(<- & <- & _) | [Hne Hq]].
      * by rewrite decide_True by lia.
      * rewrite Hothers by done. rewrite (Hfail i q Hq).
        destruct (decide (i < k));
          [by rewrite decide_True by lia | by rewrite decide_False by lia].
Qed.

(** X14. Who eats first does not depend on the draws: around a table of
    at least two, the seeding loop of [run] serves the actors of even
    index except the last of the table (whose right chopstick is the
    left one of actor 0); every other actor starts with one failed
    attempt. *)
Theorem seeding_pattern mu horizon lambdas (g : rng) s1 :
  2 <= length lambdas ->
  seeded expovariate (Simulation_init mu horizon lambdas g) s1 ->
  forall i p, philosophers s1 !! i = Some p ->
    (eating s1 i = true <-> Nat.even i = true /\ i + 1 < length lambdas) /\
    failed_attempts p = (if eating s1 i then 0 else 1).
Proof.
  intros HN Hseed i p Hp.
  destruct (Simulation_init_lengths mu horizon lambdas g) as [Hlen _].
  unfold seeded in Hseed. rewrite Hlen in Hseed.
  pose proof Hseed as Hseat.
  apply seed_seated in Hseat as [_ HF]; [|apply init_seated|rewrite Hlen; lia].
  assert (i < length lambdas) as Hi.
  { apply lookup_lt_Some in Hp.
    by rewrite <- (Forall2_length _ _ _ HF), Hlen in Hp. }
  destruct (seed_pattern mu horizon lambdas g (length lambdas) 0
              (Simulation_init mu horizon lambdas g) s1 HN) as [Heat Hfail];
    [apply init_seated | apply same_seats_refl | | |lia|exact Hseed|].
  - intros j. cbn. split; [done|lia].
  - intros j q Hq. rewrite Simulation_init_philosophers in Hq.
    destruct (lambdas !! j); [|done]. by injection Hq as <-.
  - cbn in Heat, Hfail. split.
    + rewrite Heat. split; [tauto|]. intros [? ?]. split; [lia|done].
    + rewrite (Hfail i p Hp). by rewrite decide_True by lia.
Qed.
End Seeding.

Lemma seeding_pattern_witness :
  exists s1,
    seeded scripted
      (Simulation_init 1 1 [1; 1; 1; 1; 1]%Q ([] : script)) s1 /\
    forall i p, philosophers s1 !! i = Some p ->
      (eating s1 i = true <-> Nat.even i = true /\ i + 1 < 5) /\
      failed_attempts p = (if eating s1 i then 0 else 1).
Proof.
  assert (exists s1,
            seeded scripted
              (Simulation_init 1 1 [1; 1; 1; 1; 1]%Q ([] : script)) s1)
    as [s1 Hseed].
  { eexists. vm_compute. reflexivity. }
  exists s1. split; [exact Hseed|].
  apply (seeding_pattern scripted 1 1 [1; 1; 1; 1; 1]%Q ([] : script) s1);
    [cbn; lia | exact Hseed].
Defined.
